(** * crossup: the matchmaking and relay server (main.go)

    A shallow embedding of the Go server: the JSON message protocol
    ([Message], [sendMessage], [handleMessage]), the data structures
    ([Puzzle], [GameState], [dummyPuzzle]) and the blocks of [wsHandler]
    (the waiting slot, the start of a match, the two message pumps).

    Conventions.
    - A Go pointer that may be nil is an [option]; dereferencing it through
      [None] is a Go panic (outcome [Panic]).
    - A byte slice handed to or produced by encoding/json is seen through
      the scanner of that library, see [bytes].
    - Everything outside the process (the sockets, the log, the clock and
      the puzzle database) is gathered in [World]; code with effects is a
      function from worlds to outcomes, the monad [IO]. *)

From stdpp Require Import gmap strings list fin_maps.
From Stdlib Require Import Ascii.

Open Scope string_scope.
Open Scope list_scope.

(** ** JSON values and byte slices *)

Module JSON.

#[local] Set Warnings "-register-all".

(** A JSON value.  A string is kept decoded (escapes resolved), a number by
    its literal text; the members of an object stay in document order, with
    duplicates, because the decoder visits them one after the other. *)
Inductive json : Type :=
  | JNull
  | JBool (b : bool)
  | JNumber (literal : string)
  | JString (s : string)
  | JArray (items : list json)
  | JObject (members : list (string * json)).

(** What a [[]byte] (or [json.RawMessage]) is for encoding/json: the nil
    slice, bytes that are not the text of one JSON value, or the text of
    the value [v]. *)
Inductive bytes : Type :=
  | NilBytes
  | BadBytes (raw : string)
  | Text (v : json).

(** Go's [error] interface: a value with an [Error()] text. *)
Record error : Type := errors_New { Error : string }.

Definition SyntaxError : error :=
  errors_New "unexpected end of JSON input or invalid character".

(** [UnmarshalTypeError]: a JSON value of kind [value] met a Go target of
    another kind. *)
Definition UnmarshalTypeError (value : string) : error :=
  errors_New ("json: cannot unmarshal " +:+ value +:+ " into Go value").

Definition kind (j : json) : string :=
  match j with
  | JNull => "null"
  | JBool _ => "bool"
  | JNumber _ => "number"
  | JString _ => "string"
  | JArray _ => "array"
  | JObject _ => "object"
  end.

(** *** Decoding *)

(** encoding/json matches an object key with a struct field by its exact
    name first and, failing that, case-insensitively.  The field names of
    this program hold neither [k] nor [s], the two ASCII letters with a
    non-ASCII case variant, so folding the ASCII letters is exact. *)
Definition foldByte (c : ascii) : ascii :=
  let n := nat_of_ascii c in
  if (97 <=? n)%nat && (n <=? 122)%nat then ascii_of_nat (n - 32) else c.

Fixpoint foldName (s : string) : string :=
  match s with
  | EmptyString => EmptyString
  | String c rest => String (foldByte c) (foldName rest)
  end.

Definition find_field (names : list string) (key : string) : option string :=
  match List.find (String.eqb key) names with
  | Some f => Some f
  | None => List.find (fun f => String.eqb (foldName f) (foldName key)) names
  end.

(** The decoder keeps the first error and goes on. *)
Definition saveError (saved err : option error) : option error :=
  match saved with
  | Some e => Some e
  | None => err
  end.

(** A struct the decoder can fill: the JSON names of its fields and the
    store of one JSON value into the field of that name. *)
Class Struct (A : Type) : Type := {
  fields : list string;
  store : string -> json -> A -> A * option error
}.

Section Decode.
Context {A : Type} `{Struct A}.

Fixpoint decode_members (kvs : list (string * json)) (v : A)
    (saved : option error) : A * option error :=
  match kvs with
  | [] => (v, saved)
  | (key, j) :: rest =>
      match find_field fields key with
      | None => decode_members rest v saved
      | Some f =>
          let '(v', err) := store f j v in
          decode_members rest v' (saveError saved err)
      end
  end.

(** A value into a struct: an object fills the fields, [null] leaves the
    struct as it is, anything else is a type error. *)
Definition decode_struct (j : json) (v : A) : A * option error :=
  match j with
  | JObject kvs => decode_members kvs v None
  | JNull => (v, None)
  | _ => (v, Some (UnmarshalTypeError (kind j)))
  end.

(** [json.Unmarshal(data, &v)]: the struct after the call and the error
    returned. *)
Definition Unmarshal (data : bytes) (v : A) : A * option error :=
  match data with
  | Text j => decode_struct j v
  | NilBytes | BadBytes _ => (v, Some SyntaxError)
  end.
End Decode.

(** A value into a Go [string]: a JSON string is stored, [null] leaves the
    old value, anything else is a type error and leaves the old value. *)
Definition decode_string (j : json) (old : string) : string * option error :=
  match j with
  | JString s => (s, None)
  | JNull => (old, None)
  | _ => (old, Some (UnmarshalTypeError (kind j)))
  end.

(** *** Encoding *)

(** [json.Marshal(v)] for the Go types of this program: the bytes and the
    error returned. *)
Class Marshaler (A : Type) : Type := {
  Marshal : A -> bytes * option error
}.

Fixpoint insert_by_key (kv : string * string) (l : list (string * string))
    : list (string * string) :=
  match l with
  | [] => [kv]
  | kv' :: rest =>
      if String.leb kv.1 kv'.1 then kv :: l else kv' :: insert_by_key kv rest
  end.

(** A [map[string]string] is written as an object with its keys sorted. *)
Definition marshal_map (m : gmap string string) : json :=
  JObject ((fun kv : string * string => (kv.1, JString kv.2))
             <$> foldr insert_by_key [] (map_to_list m)).

End JSON.
Export JSON.

(** ** Data structures *)

(** [Puzzle], as main.go declares it. *)
Record Puzzle : Type := mkPuzzle {
  Grid : string;
  Clues : gmap string string;
  Answers : gmap string string
}.

(** A [time.Time]; the program only stores it and writes it to JSON, where
    it is the string of its RFC 3339 text. *)
Record Time : Type := mkTime { RFC3339 : string }.

(** [GameState].  The two maps are made by two calls of [make] in
    [wsHandler], the only place that builds a [GameState]: they are never
    nil and never the same map, which is what two [gmap] fields say. *)
Record GameState : Type := mkGameState {
  GamePuzzle : Puzzle;
  Player1State : gmap string string;
  Player2State : gmap string string;
  StartTime : Time;
  IsFinished : bool
}.

(** The puzzle used when the database cannot be reached or read. *)
Definition dummyPuzzle : Puzzle := {|
  Grid := "dummy grid layout";
  Clues := {[ "7-Across" := "Example clue for 7-Across";
              "7-Down" := "Example clue for 7-Down" ]};
  Answers := {[ "7-Across" := "EXAMPLE"; "7-Down" := "EXAMPLE" ]}
|}.

(** ** The world outside the process and the monad of effects *)

(** A [websocket.Conn]; a [*websocket.Conn] is an [option] of it. *)
Definition websocket_Conn : Type := nat.

(** One call [conn.WriteMessage(websocket.TextMessage, body)]. *)
Record Frame : Type := mkFrame { to : websocket_Conn; body : bytes }.

(** A [sql.DB]. *)
Definition DB : Type := nat.

Record World : Type := mkWorld {
  (** the calls of [WriteMessage] so far, oldest first *)
  wire : list Frame;
  (** the lines given to package log, oldest first *)
  logs : list string;
  (** the transport: the error, if any, of the [n]-th write (from 0) *)
  write_error : nat -> option error;
  (** [time.Now()] *)
  clock : Time;
  (** what [sql.Open(driverName, dataSourceName)] returns *)
  sql_open : string -> string -> option DB * option error;
  (** what [db.Ping()] returns *)
  db_ping : option DB -> option error;
  (** what [LoadPuzzle(db, puzzleID)] returns *)
  db_load : option DB -> Z -> Puzzle * option error
}.

Inductive Outcome (A : Type) : Type :=
  | Done (a : A) (w : World)
  | Panic (reason : string).
Arguments Done {A} a w.
Arguments Panic {A} reason.

Definition IO (A : Type) : Type := World -> Outcome A.

Definition ret {A : Type} (a : A) : IO A := fun w => Done a w.

Definition bind {A B : Type} (m : IO A) (k : A -> IO B) : IO B :=
  fun w =>
    match m w with
    | Done a w' => k a w'
    | Panic reason => Panic reason
    end.

Declare Scope io_scope.
Delimit Scope io_scope with io.
Notation "x <- m ;; k" := (bind m (fun x => k))
  (at level 100, m at next level, right associativity) : io_scope.
Notation "m ;; k" := (bind m (fun _ => k))
  (at level 100, right associativity) : io_scope.
Open Scope io_scope.

Definition panic {A : Type} (reason : string) : IO A := fun _ => Panic reason.

(** The world with one more log line, and with one more frame written. *)
Definition add_log (line : string) (w : World) : World :=
  {| wire := wire w; logs := logs w ++ [line];
     write_error := write_error w; clock := clock w;
     sql_open := sql_open w; db_ping := db_ping w; db_load := db_load w |}.

Definition add_frame (f : Frame) (w : World) : World :=
  {| wire := wire w ++ [f]; logs := logs w;
     write_error := write_error w; clock := clock w;
     sql_open := sql_open w; db_ping := db_ping w; db_load := db_load w |}.

(** [log.Println(args...)]: the operands separated by spaces. *)
Definition log_Println (args : list string) : IO unit :=
  fun w => Done tt (add_log (String.concat " " args) w).

(** [log.Printf(format, args...)], the format already filled in. *)
Definition log_Printf (line : string) : IO unit :=
  fun w => Done tt (add_log line w).

Definition time_Now : IO Time := fun w => Done (clock w) w.

(** [conn.WriteMessage(websocket.TextMessage, data)]: on a nil connection
    the call dereferences nil; otherwise the frame goes to the transport,
    which reports an error or not. *)
Definition WriteMessage (conn : option websocket_Conn) (data : bytes)
    : IO (option error) :=
  fun w =>
    match conn with
    | None => Panic "invalid memory address or nil pointer dereference"
    | Some c =>
        Done (write_error w (length (wire w))) (add_frame (mkFrame c data) w)
    end.

(** ** JSON message protocol *)

(** [Message] defines the structure for all messages. *)
Record Message : Type := mkMessage {
  Type_ : string;
  Data : bytes
}.

(** [var message Message]: the zero value. *)
Definition zeroMessage : Message := {| Type_ := EmptyString; Data := NilBytes |}.

#[export] Instance Message_Struct : Struct Message := {|
  fields := ["type"; "data"];
  store f j v :=
    if String.eqb f "type" then
      let '(s, err) := decode_string j (Type_ v) in
      ({| Type_ := s; Data := Data v |}, err)
    else
      (* json.RawMessage takes the text of any value, null included *)
      ({| Type_ := Type_ v; Data := Text j |}, None)
|}.

(** A [json.RawMessage] inside a marshalled value: nil is written [null],
    bytes that are not JSON make [Marshal] fail. *)
Definition marshal_raw (m : bytes) : json * option error :=
  match m with
  | NilBytes => (JNull, None)
  | BadBytes _ => (JNull, Some SyntaxError)
  | Text v => (v, None)
  end.

#[export] Instance Message_Marshaler : Marshaler Message := {|
  Marshal msg :=
    match marshal_raw (Data msg) with
    | (_, Some err) => (NilBytes, Some err)
    | (d, None) =>
        (Text (JObject [("type", JString (Type_ msg)); ("data", d)]), None)
    end
|}.

(** [sendMessage] marshals and sends a JSON message over the WebSocket. *)
Definition sendMessage {A : Type} `{Marshaler A}
    (conn : option websocket_Conn) (messageType : string) (data : A) : IO (option error) :=
  let msg := {| Type_ := messageType; Data := NilBytes |} in
  let '(dataBytes, err) := Marshal data in
  match err with
  | Some e => ret (Some e)
  | None =>
      let msg := {| Type_ := Type_ msg; Data := dataBytes |} in
      let '(fullMessage, err) := Marshal msg in
      match err with
      | Some e => ret (Some e)
      | None => WriteMessage conn fullMessage
      end
  end.

(** The payload of a [board_update]. *)
Record BoardUpdateData : Type := mkBoardUpdateData {
  Cell : string;
  Letter : string
}.

Definition zeroBoardUpdate : BoardUpdateData :=
  {| Cell := EmptyString; Letter := EmptyString |}.

#[export] Instance BoardUpdateData_Struct : Struct BoardUpdateData := {|
  fields := ["cell"; "letter"];
  store f j v :=
    if String.eqb f "cell" then
      let '(s, err) := decode_string j (Cell v) in
      ({| Cell := s; Letter := Letter v |}, err)
    else
      let '(s, err) := decode_string j (Letter v) in
      ({| Cell := Cell v; Letter := s |}, err)
|}.

#[export] Instance BoardUpdateData_Marshaler : Marshaler BoardUpdateData := {|
  Marshal data :=
    (Text (JObject [("cell", JString (Cell data));
                    ("letter", JString (Letter data))]), None)
|}.

(** The payload of a [game_over]. *)
Record GameOverData : Type := mkGameOverData {
  Winner : string
}.

Definition zeroGameOver : GameOverData := {| Winner := EmptyString |}.

#[export] Instance GameOverData_Struct : Struct GameOverData := {|
  fields := ["winner"];
  store f j v :=
    let '(s, err) := decode_string j (Winner v) in
    ({| Winner := s |}, err)
|}.

#[export] Instance GameOverData_Marshaler : Marshaler GameOverData := {|
  Marshal data := (Text (JObject [("winner", JString (Winner data))]), None)
|}.

Definition is_nil {A : Type} (p : option A) : bool :=
  match p with
  | None => true
  | Some _ => false
  end.

(** [gameState.Player1State[key] = value], a store through the pointer. *)
Definition set_Player1State (gameState : option GameState) (key value : string)
    : IO (option GameState) :=
  match gameState with
  | None => panic "invalid memory address or nil pointer dereference"
  | Some gs =>
      ret (Some {| GamePuzzle := GamePuzzle gs;
                   Player1State := <[key := value]> (Player1State gs);
                   Player2State := Player2State gs;
                   StartTime := StartTime gs;
                   IsFinished := IsFinished gs |})
  end.

(** [gameState.Player2State[key] = value]. *)
Definition set_Player2State (gameState : option GameState) (key value : string)
    : IO (option GameState) :=
  match gameState with
  | None => panic "invalid memory address or nil pointer dereference"
  | Some gs =>
      ret (Some {| GamePuzzle := GamePuzzle gs;
                   Player1State := Player1State gs;
                   Player2State := <[key := value]> (Player2State gs);
                   StartTime := StartTime gs;
                   IsFinished := IsFinished gs |})
  end.

(** [gameState.IsFinished = value]. *)
Definition set_IsFinished (gameState : option GameState) (value : bool)
    : IO (option GameState) :=
  match gameState with
  | None => panic "invalid memory address or nil pointer dereference"
  | Some gs =>
      ret (Some {| GamePuzzle := GamePuzzle gs;
                   Player1State := Player1State gs;
                   Player2State := Player2State gs;
                   StartTime := StartTime gs;
                   IsFinished := value |})
  end.

(** [handleMessage] processes an incoming JSON message and updates the game
    state.  The result is the [GameState] behind the pointer [gameState]
    when the call returns. *)
Definition handleMessage (msg : bytes) (gameState : option GameState)
    (playerID : string) (opponentConn : option websocket_Conn)
    : IO (option GameState) :=
  let '(message, err) := Unmarshal msg zeroMessage in
  match err with
  | Some e =>
      log_Println ["Error unmarshaling message:"; Error e];;
      ret gameState
  | None =>
      if String.eqb (Type_ message) "board_update" then
        let '(data, err) := Unmarshal (Data message) zeroBoardUpdate in
        match err with
        | Some e =>
            log_Println ["Error parsing board_update data:"; Error e];;
            ret gameState
        | None =>
            log_Printf ("Board update from " +:+ playerID +:+ ": cell "
                        +:+ Cell data +:+ " set to " +:+ Letter data);;
            (* Update the game state for the respective player. *)
            gameState <-
              (if negb (is_nil gameState) then
                 if String.eqb playerID "player1" then
                   set_Player1State gameState (Cell data) (Letter data)
                 else if String.eqb playerID "player2" then
                   set_Player2State gameState (Cell data) (Letter data)
                 else ret gameState
               else ret gameState);;
            (* Broadcast the update to the opponent. *)
            (if negb (is_nil opponentConn) then
               err <- sendMessage opponentConn "board_update" data;;
               match err with
               | Some e =>
                   log_Println ["Error broadcasting board_update:"; Error e]
               | None => ret tt
               end
             else ret tt);;
            ret gameState
        end
      else if String.eqb (Type_ message) "heartbeat" then
        log_Printf ("Heartbeat received from " +:+ playerID);;
        ret gameState
      else if String.eqb (Type_ message) "game_over" then
        let '(data, err) := Unmarshal (Data message) zeroGameOver in
        match err with
        | Some e =>
            log_Println ["Error parsing game_over data:"; Error e];;
            ret gameState
        | None =>
            gameState <-
              (if negb (is_nil gameState) then set_IsFinished gameState true
               else ret gameState);;
            log_Printf ("Game over received from " +:+ playerID
                        +:+ ", winner: " +:+ Winner data);;
            (* Broadcast game_over to the opponent. *)
            (if negb (is_nil opponentConn) then
               err <- sendMessage opponentConn "game_over" data;;
               match err with
               | Some e =>
                   log_Println ["Error broadcasting game_over:"; Error e]
               | None => ret tt
               end
             else ret tt);;
            ret gameState
        end
      else
        log_Println ["Received unknown message type:"; Type_ message];;
        ret gameState
  end.

(** ** WebSocket & matchmaking *)

Definition marshal_Puzzle (p : Puzzle) : json :=
  JObject [("grid", JString (Grid p));
           ("clues", marshal_map (Clues p));
           ("answers", marshal_map (Answers p))].

#[export] Instance Puzzle_Marshaler : Marshaler Puzzle := {|
  Marshal p := (Text (marshal_Puzzle p), None)
|}.

(** The payload of the [game_start] message. *)
Record StartData : Type := mkStartData {
  StartData_Puzzle : Puzzle;
  StartData_StartTime : Time
}.

#[export] Instance StartData_Marshaler : Marshaler StartData := {|
  Marshal d :=
    match Marshal (StartData_Puzzle d) with
    | (Text p, None) =>
        (Text (JObject [("puzzle", p);
                        ("start_time",
                         JString (RFC3339 (StartData_StartTime d)))]), None)
    | (_, Some err) => (NilBytes, Some err)
    | (_, None) => (NilBytes, Some SyntaxError)
    end
|}.

(** [Player] represents a connected player; [Conn] is the connection of a
    successful upgrade, never nil. *)
Record Player : Type := mkPlayer {
  ID : string;
  Conn : websocket_Conn
}.

(** [Match] represents a game match between two players. *)
Record Match : Type := mkMatch {
  Player1 : Player;
  Player2 : Player
}.

Definition sql_Open (driverName dataSourceName : string)
    : IO (option DB * option error) :=
  fun w => Done (sql_open w driverName dataSourceName) w.

Definition DB_Ping (db : option DB) : IO (option error) :=
  fun w => Done (db_ping w db) w.

(** [ConnectDB] opens a connection to the PostgreSQL database (db.go). *)
Definition ConnectDB : IO (option DB * option error) :=
  let connStr :=
    "user=crossword_user password=your_password dbname=crossword_db sslmode=disable" in
  opened <- sql_Open "postgres" connStr;;
  let '(db, err) := opened in
  match err with
  | Some e => ret (None, Some e)
  | None =>
      (* Test the connection. *)
      err <- DB_Ping db;;
      match err with
      | Some e => ret (None, Some e)
      | None => ret (db, None)
      end
  end.

(** [LoadPuzzle] loads a puzzle from the database by ID (db.go).  db.go
    declares [Puzzle] a second time, with an id, a title and a creation
    time that the record of main.go does not have; the server is modelled
    with the record of main.go, and the query by what it returns: a puzzle
    and the error of the scan or of the parsing of the clues and answers. *)
Definition LoadPuzzle (db : option DB) (puzzleID : Z) : IO (Puzzle * option error) :=
  fun w => Done (db_load w db puzzleID) w.

(** [wsHandler], from the upgraded connection ([player] is built from it)
    to its first read.  The variable [waitingPlayer] is passed in and out;
    [waitingMutex] makes the test and the update of it one step.  The
    result also holds the match and the game state when this arrival
    starts a game.  The deferred [Close] calls run when the handler ends
    and are left out. *)
Definition wsHandler (player : Player) (waitingPlayer : option Player)
    : IO (option Player * option (Match * GameState)) :=
  if is_nil waitingPlayer then
    let waitingPlayer := Some player in
    log_Println ["Player waiting:"; ID player];;
    ret (waitingPlayer, None)
  else
    match waitingPlayer with
    | None => panic "invalid memory address or nil pointer dereference"
    | Some opponent =>
        (* A waiting player is available; create a match. *)
        let waitingPlayer := None in
        let match_ := {| Player1 := opponent; Player2 := player |} in
        log_Println ["Match created between"; ID (Player1 match_); "and";
                     ID (Player2 match_)];;
        (* Connect to DB and load puzzle. *)
        connected <- ConnectDB;;
        let '(db, err) := connected in
        loadedPuzzle <-
          match err with
          | Some e =>
              log_Println ["Error connecting to DB:"; Error e];;
              ret dummyPuzzle
          | None =>
              loaded <- LoadPuzzle db 1;;
              let '(loadedPuzzle, err) := loaded in
              match err with
              | Some e =>
                  log_Println ["Error loading puzzle:"; Error e];;
                  ret dummyPuzzle
              | None => ret loadedPuzzle
              end
          end;;
        (* Initialize game state with the loaded puzzle. *)
        now <- time_Now;;
        let gameState := {| GamePuzzle := loadedPuzzle;
                            Player1State := ∅;
                            Player2State := ∅;
                            StartTime := now;
                            IsFinished := false |} in
        let startData := {| StartData_Puzzle := loadedPuzzle;
                            StartData_StartTime := StartTime gameState |} in
        (* Send the game_start message to both players. *)
        err <- sendMessage (Some (Conn (Player1 match_))) "game_start" startData;;
        match err with
        | Some e => log_Println ["Error sending game_start to Player1:"; Error e]
        | None => ret tt
        end;;
        err <- sendMessage (Some (Conn (Player2 match_))) "game_start" startData;;
        match err with
        | Some e => log_Println ["Error sending game_start to Player2:"; Error e]
        | None => ret tt
        end;;
        ret (waitingPlayer, Some (match_, gameState))
    end.

(** One turn of the loop that keeps a waiting connection alive:
    [ReadMessage] returned [msg] and [err]. *)
Definition wsHandler_waiting (player : Player) (msg : bytes) (err : option error)
    (waitingPlayer : option Player) : IO (option Player) :=
  match err with
  | Some _ =>
      log_Println ["Player disconnected while waiting:"; ID player];;
      ret
        match waitingPlayer with
        | Some wp => if String.eqb (ID wp) (ID player) then None else waitingPlayer
        | None => waitingPlayer
        end
  | None =>
      (* Process messages (like heartbeat) while waiting. *)
      handleMessage msg None "waiting" None;;
      ret waitingPlayer
  end.

(** The two goroutines of a match. *)
Inductive Side : Type := player1 | player2.

Definition playerID (side : Side) : string :=
  match side with
  | player1 => "player1"
  | player2 => "player2"
  end.

Definition opponentConn (m : Match) (side : Side) : websocket_Conn :=
  match side with
  | player1 => Conn (Player2 m)
  | player2 => Conn (Player1 m)
  end.

(** One turn of the loop of [side] after [ReadMessage] returned [msg]
    without error. *)
Definition pump (m : Match) (side : Side) (msg : bytes)
    (gameState : option GameState) : IO (option GameState) :=
  match side with
  | player1 =>
      (* Handle message from Player1; broadcast updates to Player2. *)
      handleMessage msg gameState "player1" (Some (Conn (Player2 m)))
  | player2 =>
      (* Handle message from Player2; broadcast updates to Player1. *)
      handleMessage msg gameState "player2" (Some (Conn (Player1 m)))
  end.

(** The messages of a match in the order the two loops handle them; both
    loops work on the one [GameState] of the match. *)
Fixpoint relay (m : Match) (reads : list (Side * bytes))
    (gameState : option GameState) : IO (option GameState) :=
  match reads with
  | [] => ret gameState
  | (side, msg) :: rest =>
      gameState <- pump m side msg gameState;;
      relay m rest gameState
  end.

(** What happens on the connections that are not yet in a match. *)
Inductive Event : Type :=
  | Connect (player : Player)
  | WaitingRead (player : Player) (msg : bytes) (err : option error).

(** The waiting slot and the matches started so far, oldest first. *)
Record Server : Type := mkServer {
  waitingPlayer : option Player;
  matches : list (Match * GameState)
}.

Definition step (ev : Event) (sv : Server) : IO Server :=
  match ev with
  | Connect player =>
      handled <- wsHandler player (waitingPlayer sv);;
      let '(waiting, started) := handled in
      ret {| waitingPlayer := waiting;
             matches := matches sv ++ option_list started |}
  | WaitingRead player msg err =>
      waiting <- wsHandler_waiting player msg err (waitingPlayer sv);;
      ret {| waitingPlayer := waiting; matches := matches sv |}
  end.

Fixpoint serve (evs : list Event) (sv : Server) : IO Server :=
  match evs with
  | [] => ret sv
  | ev :: rest =>
      sv <- step ev sv;;
      serve rest sv
  end.

(** * Vocabulary of the statements *)

(** The text [{"type": tag, "data": payload}], as [sendMessage] writes it. *)
Definition envelope (tag : string) (payload : json) : bytes :=
  Text (JObject [("type", JString tag); ("data", payload)]).

(** [msg] is an envelope of type [tag] with payload [payload]: an object
    with exactly these two members, in either order. *)
Definition envelope_of (tag : string) (payload : json) (msg : bytes) : Prop :=
  exists members,
    msg = Text (JObject members)
    /\ members ≡ₚ [("type", JString tag); ("data", payload)].

(** The grid map of a side in the game state. *)
Definition grid (side : Side) (gs : GameState) : gmap string string :=
  match side with
  | player1 => Player1State gs
  | player2 => Player2State gs
  end.

Definition opposite (side : Side) : Side :=
  match side with
  | player1 => player2
  | player2 => player1
  end.

(** A call that returns with the game state as it was and writes nothing
    to any connection. *)
Definition dropped (msg : bytes) (gameState : option GameState)
    (pid : string) (opp : option websocket_Conn) (w : World) : Prop :=
  exists w',
    handleMessage msg gameState pid opp w = Done gameState w'
    /\ wire w' = wire w.

(** The values a Go [string] accepts from the decoder. *)
Definition string_or_null (j : json) : bool :=
  match j with
  | JString _ | JNull => true
  | _ => false
  end.

(** Every member that goes to one of the fields [names] has a value that a
    [string] accepts. *)
Definition well_typed (names : list string) (kvs : list (string * json)) : bool :=
  forallb
    (fun kv : string * json =>
       match find_field names kv.1 with
       | Some _ => string_or_null kv.2
       | None => true
       end) kvs.

(** The [game_start] message for a game state. *)
Definition game_start (gs : GameState) : bytes :=
  envelope "game_start"
    (JObject [("puzzle", marshal_Puzzle (GamePuzzle gs));
              ("start_time", JString (RFC3339 (StartTime gs)))]).

(** The type tag a receiver reads in a frame. *)
Definition frame_type (f : Frame) : string :=
  Type_ (Unmarshal (body f) zeroMessage).1.

(** The frames written by a call that began with nothing written. *)
Definition written {A : Type} (o : Outcome A) : list Frame :=
  match o with
  | Done _ w => wire w
  | Panic _ => []
  end.

(** The puzzle [wsHandler] settles on in the world [w]. *)
Definition loadedPuzzle (w : World) : Puzzle :=
  match ConnectDB w with
  | Done (db, None) _ =>
      match LoadPuzzle db 1 w with
      | Done (puzzle, None) _ => puzzle
      | _ => dummyPuzzle
      end
  | _ => dummyPuzzle
  end.

(** The puzzle lookup fails in the world [w]: [ConnectDB] returns an error,
    or it returns a database and [LoadPuzzle] returns an error. *)
Definition puzzle_lookup_fails (w : World) : Prop :=
  exists db err,
    ConnectDB w = Done (db, err) w
    /\ (err <> None \/ exists puzzle e, LoadPuzzle db 1 w = Done (puzzle, Some e) w).

(** Where the players of the new matches and of the slot come from: the
    slot before, or an arrival among the events. *)
Definition known (sv : Server) (evs : list Event) (p : Player) : Prop :=
  waitingPlayer sv = Some p \/ Connect p ∈ evs.

(** An event that is a message read in a waiting loop, not a read error. *)
Definition is_message (ev : Event) : Prop :=
  exists player msg, ev = WaitingRead player msg None.

(** ** Values for the examples *)

Module Sample.

Definition alice : Player := {| ID := "10.0.0.1:5001"; Conn := 1 |}.
Definition bob : Player := {| ID := "10.0.0.2:5002"; Conn := 2 |}.
Definition carol : Player := {| ID := "10.0.0.3:5003"; Conn := 3 |}.

Definition game : Match := {| Player1 := alice; Player2 := bob |}.

(** A world with a working transport and a database that cannot be
    reached. *)
Definition w0 : World := {|
  wire := [];
  logs := [];
  write_error := fun _ => None;
  clock := mkTime "2025-03-01T12:00:00Z";
  sql_open := fun _ _ => (Some 7, None);
  db_ping := fun _ => Some (errors_New "connection refused");
  db_load := fun _ _ => (dummyPuzzle, None)
|}.

(** The game state of a match that has just started. *)
Definition gs0 : GameState := {|
  GamePuzzle := dummyPuzzle;
  Player1State := ∅;
  Player2State := ∅;
  StartTime := mkTime "2025-03-01T12:00:00Z";
  IsFinished := false
|}.

Definition finished : GameState := {|
  GamePuzzle := dummyPuzzle;
  Player1State := ∅;
  Player2State := ∅;
  StartTime := mkTime "2025-03-01T12:00:00Z";
  IsFinished := true
|}.

(** [{"type":"board_update","data":{"cell":"1A1","letter":"C"}}] *)
Definition update : bytes :=
  envelope "board_update"
    (JObject [("cell", JString "1A1"); ("letter", JString "C")]).

(** [{"type":"board_update","data":{"cell":"1A1"}}] *)
Definition update_without_letter : bytes :=
  envelope "board_update" (JObject [("cell", JString "1A1")]).

(** [{"type":"board_update","data":{"cell":"1A1","letter":3}}] *)
Definition update_with_number : bytes :=
  envelope "board_update"
    (JObject [("cell", JString "1A1"); ("letter", JNumber "3")]).

(** [{"type":"game_over","data":{"winner":"player1"}}] *)
Definition over : bytes :=
  envelope "game_over" (JObject [("winner", JString "player1")]).

(** [{"type":"heartbeat","data":{}}] *)
Definition heartbeat : bytes := envelope "heartbeat" (JObject []).

End Sample.

(** * More of the code *)

(** ** db.go: loading a puzzle *)

Module Db.

(** [Puzzle] as db.go declares it, the row of the table [puzzles].  A map
    is seen through its entries: the nil map has none. *)
Record Puzzle : Type := mkPuzzle {
  ID : Z;
  Title : string;
  Grid : string;
  Clues : gmap string string;
  Answers : gmap string string;
  Created : Time
}.

(** What [row.Scan] leaves in its six destinations. *)
Record Scanned : Type := mkScanned {
  scan_id : Z;
  scan_title : string;
  scan_grid : string;
  scan_clues : bytes;
  scan_answers : bytes;
  scan_created : Time
}.

(** The members of an object into a [map[string]string]: every key gets
    an entry, a later one for the same key replaces the earlier; a [null]
    gives the empty string, a value of another kind too, and its type
    error is kept. *)
Fixpoint decode_map_members (kvs : list (string * json))
    (m : gmap string string) (saved : option error)
    : gmap string string * option error :=
  match kvs with
  | [] => (m, saved)
  | (key, j) :: rest =>
      let '(s, err) := decode_string j EmptyString in
      decode_map_members rest (<[key := s]> m) (saveError saved err)
  end.

(** [json.Unmarshal(data, &m)] for a [map[string]string]. *)
Definition Unmarshal_map (data : bytes) (m : gmap string string)
    : gmap string string * option error :=
  match data with
  | Text (JObject kvs) => decode_map_members kvs m None
  | Text JNull => (∅, None)
  | Text j => (m, Some (UnmarshalTypeError (kind j)))
  | NilBytes | BadBytes _ => (m, Some SyntaxError)
  end.

(** [fmt.Errorf(prefix + "%v", err)]. *)
Definition fmt_Errorf (prefix : string) (err : error) : error :=
  errors_New (prefix +:+ Error err).

Section Query.

(** The database: the destinations and the error of the scan of the row
    of [puzzles] with the given id. *)
Variable QueryRow_Scan : DB -> Z -> Scanned * option error.

(** [LoadPuzzle] loads a puzzle from the database by ID. *)
Definition LoadPuzzle (db : option DB) (puzzleID : Z) : IO (Puzzle * option error) :=
  match db with
  | None => panic "invalid memory address or nil pointer dereference"
  | Some handle =>
      let '(row, err) := QueryRow_Scan handle puzzleID in
      let puzzle := {| ID := scan_id row; Title := scan_title row;
                       Grid := scan_grid row; Clues := ∅; Answers := ∅;
                       Created := scan_created row |} in
      match err with
      | Some e => ret (puzzle, Some e)
      | None =>
          (* Unmarshal JSON fields. *)
          let '(clues, err) := Unmarshal_map (scan_clues row) (Clues puzzle) in
          let puzzle := {| ID := ID puzzle; Title := Title puzzle;
                           Grid := Grid puzzle; Clues := clues;
                           Answers := Answers puzzle;
                           Created := Created puzzle |} in
          match err with
          | Some e => ret (puzzle, Some (fmt_Errorf "error parsing clues: " e))
          | None =>
              let '(answers, err) :=
                Unmarshal_map (scan_answers row) (Answers puzzle) in
              let puzzle := {| ID := ID puzzle; Title := Title puzzle;
                               Grid := Grid puzzle; Clues := Clues puzzle;
                               Answers := answers;
                               Created := Created puzzle |} in
              match err with
              | Some e =>
                  ret (puzzle, Some (fmt_Errorf "error parsing answers: " e))
              | None => ret (puzzle, None)
              end
          end
      end
  end.

End Query.

End Db.

(** ** Vocabulary of the further statements *)

#[export] Instance Side_eq_dec : EqDecision Side.
Proof. solve_decision. Defined.

(** The payload [handleMessage] finds in [msg] when it takes it for a
    [board_update] that decodes. *)
Definition update_of (msg : bytes) : option BoardUpdateData :=
  match Unmarshal msg zeroMessage with
  | (message, None) =>
      if String.eqb (Type_ message) "board_update" then
        match Unmarshal (Data message) zeroBoardUpdate with
        | (data, None) => Some data
        | (_, Some _) => None
        end
      else None
  | (_, Some _) => None
  end.

(** The same for a [game_over]. *)
Definition over_of (msg : bytes) : option GameOverData :=
  match Unmarshal msg zeroMessage with
  | (message, None) =>
      if String.eqb (Type_ message) "game_over" then
        match Unmarshal (Data message) zeroGameOver with
        | (data, None) => Some data
        | (_, Some _) => None
        end
      else None
  | (_, Some _) => None
  end.

(** The text written to the opponent for [msg], if any. *)
Definition forward_of (msg : bytes) : option bytes :=
  match update_of msg, over_of msg with
  | Some data, _ =>
      Some (envelope "board_update"
              (JObject [("cell", JString (Cell data));
                        ("letter", JString (Letter data))]))
  | None, Some data =>
      Some (envelope "game_over" (JObject [("winner", JString (Winner data))]))
  | None, None => None
  end.

(** The game state after [handleMessage] has taken [msg] for [pid]. *)
Definition apply_to (pid : string) (msg : bytes) (gs : GameState) : GameState :=
  match update_of msg, over_of msg with
  | Some data, _ =>
      if String.eqb pid "player1" then
        {| GamePuzzle := GamePuzzle gs;
           Player1State := <[Cell data := Letter data]> (Player1State gs);
           Player2State := Player2State gs;
           StartTime := StartTime gs;
           IsFinished := IsFinished gs |}
      else if String.eqb pid "player2" then
        {| GamePuzzle := GamePuzzle gs;
           Player1State := Player1State gs;
           Player2State := <[Cell data := Letter data]> (Player2State gs);
           StartTime := StartTime gs;
           IsFinished := IsFinished gs |}
      else gs
  | None, Some _ =>
      {| GamePuzzle := GamePuzzle gs;
         Player1State := Player1State gs;
         Player2State := Player2State gs;
         StartTime := StartTime gs;
         IsFinished := true |}
  | None, None => gs
  end.

(** The frame written for [msg] when the opponent is [opp]. *)
Definition frames_of (opp : option websocket_Conn) (msg : bytes) : list Frame :=
  match opp, forward_of msg with
  | Some c, Some text => [mkFrame c text]
  | _, _ => []
  end.

(** Every member that goes to the field [type] of a [Message] is a string
    or [null]. *)
Definition type_members_ok (kvs : list (string * json)) : bool :=
  forallb
    (fun kv : string * json =>
       match find_field ["type"; "data"] kv.1 with
       | Some f => if String.eqb f "type" then string_or_null kv.2 else true
       | None => true
       end) kvs.

(** The updates of one side among the messages of a match, in order. *)
Definition updates_of (side : Side) (reads : list (Side * bytes))
    : list BoardUpdateData :=
  omap (fun r : Side * bytes =>
          if decide (r.1 = side) then update_of r.2 else None) reads.

(** A grid after the updates [ds], the first one first. *)
Definition fill (g : gmap string string) (ds : list BoardUpdateData)
    : gmap string string :=
  foldl (fun g d => <[Cell d := Letter d]> g) g ds.

(** The frames of a match, in order. *)
Definition forwards_of (m : Match) (reads : list (Side * bytes)) : list Frame :=
  omap (fun r : Side * bytes =>
          mkFrame (opponentConn m r.1) <$> forward_of r.2) reads.

(** The players that connect among the events, in order. *)
Definition arrivals (evs : list Event) : list Player :=
  omap (fun ev => match ev with
                  | Connect player => Some player
                  | WaitingRead _ _ _ => None
                  end) evs.

(** An event other than a read error in a waiting loop. *)
Definition no_read_error (ev : Event) : Prop :=
  match ev with
  | WaitingRead _ _ (Some _) => False
  | _ => True
  end.

(** The players of the matches and of the slot of a server. *)
Definition players (sv : Server) : list Player :=
  flat_map (fun mg : Match * GameState => [Player1 mg.1; Player2 mg.1])
    (matches sv)
  ++ option_list (waitingPlayer sv).

(** The matches of players that arrive one after the other, and the one
    left over. *)
Fixpoint pair_up (ps : list Player) : list Match * option Player :=
  match ps with
  | [] => ([], None)
  | [p] => ([], Some p)
  | p :: q :: rest =>
      let '(ms, leftover) := pair_up rest in
      ({| Player1 := p; Player2 := q |} :: ms, leftover)
  end.

(** ** More values for the examples *)

Module Scene.

(** A puzzle in the database. *)
Definition stored : Puzzle :=
  {| Grid := "CAT.O.G"; Clues := {[ "1-Across" := "Pet" ]};
     Answers := {[ "1-Across" := "CAT" ]} |}.

(** A world whose database answers. *)
Definition with_database : World := {|
wire := [];
logs := [];
write_error := fun _ => None;
clock := mkTime "2025-03-01T12:00:00Z";
sql_open := fun _ _ => (Some 7, None);
db_ping := fun _ => None;
db_load := fun _ _ => (stored, None)
|}.

(** A world whose first write fails. *)
Definition first_write_fails : World := {|
wire := [];
logs := [];
write_error :=
  fun n => if Nat.eqb n 0 then Some (errors_New "broken pipe") else None;
clock := mkTime "2025-03-01T12:00:00Z";
sql_open := fun _ _ => (None, Some (errors_New "unknown driver"));
db_ping := fun _ => None;
db_load := fun _ _ => (dummyPuzzle, None)
|}.

(** A second connection from the address of [Sample.alice]. *)
Definition alice_again : Player := {| ID := "10.0.0.1:5001"; Conn := 4 |}.

(** The row of a puzzle and a database that holds it under id 1. *)
Definition row : Db.Scanned := {|
Db.scan_id := 1;
Db.scan_title := "Monday";
Db.scan_grid := "CAT.O.G";
Db.scan_clues := Text (marshal_map {[ "1-Across" := "Pet" ]});
Db.scan_answers := Text (marshal_map {[ "1-Across" := "CAT" ]});
Db.scan_created := mkTime "2025-02-01T08:00:00Z"
|}.

Definition no_rows : error := errors_New "sql: no rows in result set".

Definition zero_row : Db.Scanned := {|
Db.scan_id := 0;
Db.scan_title := EmptyString;
Db.scan_grid := EmptyString;
Db.scan_clues := NilBytes;
Db.scan_answers := NilBytes;
Db.scan_created := mkTime "0001-01-01T00:00:00Z"
|}.

Definition table (handle : DB) (puzzleID : Z) : Db.Scanned * option error :=
  if Z.eqb puzzleID 1 then (row, None) else (zero_row, Some no_rows).

End Scene.

(** * Properties of the dispatcher *)

(** ** Running the monad *)

Ltac io_simpl :=
  unfold bind, ret, panic, log_Println, log_Printf, WriteMessage, sendMessage,
    set_Player1State, set_Player2State, set_IsFinished, time_Now,
    ConnectDB, LoadPuzzle, sql_Open, DB_Ping; cbn.

Ltac io_write :=
  match goal with
  | |- context [write_error ?w ?n] => destruct (write_error w n); cbn
  end.

Ltac io_done :=
  eexists _, _; (split; [reflexivity|]); cbn; intuition (auto; try congruence).

Lemma wire_add_log line w : wire (add_log line w) = wire w.
Proof. reflexivity. Qed.

Lemma wire_add_frame f w : wire (add_frame f w) = wire w ++ [f].
Proof. reflexivity. Qed.

Lemma bind_Done {A B : Type} (m : IO A) (k : A -> IO B) w a w' :
  m w = Done a w' -> bind m k w = k a w'.
Proof. intros Hm. unfold bind. by rewrite Hm. Qed.

(** ** Decoding an envelope *)

Lemma members_two_inv (a b : string * json) members :
  members ≡ₚ [a; b] -> members = [a; b] \/ members = [b; a].
Proof.
  intros Hp. symmetry in Hp.
  destruct (Permutation_length_2_inv Hp) as [-> | ->]; auto.
Qed.

Lemma Unmarshal_envelope tag payload msg :
  envelope_of tag payload msg ->
  Unmarshal msg zeroMessage = ({| Type_ := tag; Data := Text payload |}, None).
Proof.
  intros (members & -> & Hp).
  destruct (members_two_inv _ _ _ Hp) as [-> | ->]; reflexivity.
Qed.

Lemma Unmarshal_board_update payload cell letter :
  payload ≡ₚ [("cell", JString cell); ("letter", JString letter)] ->
  Unmarshal (Text (JObject payload)) zeroBoardUpdate
  = ({| Cell := cell; Letter := letter |}, None).
Proof.
  intros Hp.
  destruct (members_two_inv _ _ _ Hp) as [-> | ->]; reflexivity.
Qed.

Lemma decode_string_ok j old :
  (decode_string j old).2 = None <-> string_or_null j = true.
Proof. destruct j; cbn; split; intros; congruence. Qed.

Lemma decode_board_update_members kvs : forall (v : BoardUpdateData) saved,
  (decode_members kvs v saved).2 = None
  <-> saved = None /\ well_typed ["cell"; "letter"] kvs = true.
Proof.
  induction kvs as [|[key j] rest IH]; intros v saved.
  - cbn. tauto.
  - cbn [decode_members well_typed forallb fst snd fields BoardUpdateData_Struct].
    fold (well_typed ["cell"; "letter"] rest).
    destruct (find_field ["cell"; "letter"] key) as [f|]; [|by rewrite IH].
    cbn [store BoardUpdateData_Struct]. rewrite andb_true_iff.
    destruct (String.eqb f "cell").
    + pose proof (decode_string_ok j (Cell v)) as Hok.
      destruct (decode_string j (Cell v)) as [s err]. rewrite IH.
      destruct saved, err; cbn in *; intuition congruence.
    + pose proof (decode_string_ok j (Letter v)) as Hok.
      destruct (decode_string j (Letter v)) as [s err]. rewrite IH.
      destruct saved, err; cbn in *; intuition congruence.
Qed.

(** The payloads of a [board_update] that decode: [null], and the objects
    that give [cell] and [letter], when they name them, a string or
    [null].  A missing member is no error. *)
Lemma board_update_payload_decodes data :
  (Unmarshal data zeroBoardUpdate).2 = None
  <-> data = Text JNull
      \/ exists kvs,
           data = Text (JObject kvs)
           /\ well_typed ["cell"; "letter"] kvs = true.
Proof.
  destruct data as [|raw|[| | | | |kvs]]; cbn [Unmarshal decode_struct snd];
    try (split; [discriminate | intros [|(kvs' & ? & _)]; discriminate]).
  - split; [by left | done].
  - rewrite decode_board_update_members. split.
    + intros [_ Hwt]. right. by exists kvs.
    + intros [|(kvs' & [= <-] & Hwt)]; [discriminate | done].
Qed.

(** ** One call of [handleMessage] *)

(** With a game state, every call returns; it leaves the puzzle and the
    start time alone, writes a grid only for the player it is called for,
    and changes the flag only to [true] and only for a [game_over]. *)
Lemma handleMessage_total msg gs pid opp w :
  exists gs' w',
    handleMessage msg (Some gs) pid opp w = Done (Some gs') w'
    /\ GamePuzzle gs' = GamePuzzle gs
    /\ StartTime gs' = StartTime gs
    /\ (pid <> "player1" -> Player1State gs' = Player1State gs)
    /\ (pid <> "player2" -> Player2State gs' = Player2State gs)
    /\ (IsFinished gs' = IsFinished gs
        \/ IsFinished gs' = true
           /\ Type_ (Unmarshal msg zeroMessage).1 = "game_over").
Proof.
  unfold handleMessage.
  destruct (Unmarshal msg _) as [message [e|]]; io_simpl; [io_done|].
  destruct (String.eqb_spec (Type_ message) "board_update") as [Ht|Ht].
  { destruct (Unmarshal (Data message) _) as [data [e|]]; io_simpl; [io_done|].
    destruct (String.eqb_spec pid "player1") as [->|H1];
      [|destruct (String.eqb_spec pid "player2") as [->|H2]];
      destruct opp as [c|]; io_simpl; try io_write; io_done. }
  destruct (String.eqb_spec (Type_ message) "heartbeat") as [Hh|Hh];
    io_simpl; [io_done|].
  destruct (String.eqb_spec (Type_ message) "game_over") as [Hg|Hg];
    io_simpl; [|io_done].
  destruct (Unmarshal (Data message) _) as [data [e|]]; io_simpl; [io_done|].
  destruct opp as [c|]; io_simpl; try io_write; io_done.
Qed.

(** Without a game state and without an opponent, every call returns and
    only the log grows. *)
Lemma handleMessage_nil msg pid opp w :
  exists w',
    handleMessage msg None pid opp w = Done None w'
    /\ (opp = None -> wire w' = wire w).
Proof.
  unfold handleMessage.
  destruct (Unmarshal msg _) as [message [e|]]; io_simpl; [eauto|].
  destruct (String.eqb (Type_ message) "board_update").
  { destruct (Unmarshal (Data message) _) as [data [e|]]; io_simpl; [eauto|].
    destruct opp as [c|]; io_simpl; try io_write;
      (eexists; split; [reflexivity|]; intros; done). }
  destruct (String.eqb (Type_ message) "heartbeat"); io_simpl; [eauto|].
  destruct (String.eqb (Type_ message) "game_over"); io_simpl; [|eauto].
  destruct (Unmarshal (Data message) _) as [data [e|]]; io_simpl; [eauto|].
  destruct opp as [c|]; io_simpl; try io_write;
    (eexists; split; [reflexivity|]; intros; done).
Qed.

(** A [board_update] whose payload decodes to [data]. *)
Lemma handleMessage_board_update msg message data gs side opp w :
  Unmarshal msg zeroMessage = (message, None) ->
  Type_ message = "board_update" ->
  Unmarshal (Data message) zeroBoardUpdate = (data, None) ->
  exists gs' w',
    handleMessage msg (Some gs) (playerID side) (Some opp) w = Done (Some gs') w'
    /\ grid side gs' = <[Cell data := Letter data]> (grid side gs)
    /\ wire w' = wire w ++
         [mkFrame opp (envelope "board_update"
            (JObject [("cell", JString (Cell data));
                      ("letter", JString (Letter data))]))].
Proof.
  intros Hmsg Ht Hdata. unfold handleMessage.
  rewrite Hmsg, Ht. cbn. rewrite Hdata.
  destruct side; io_simpl; io_write; io_done.
Qed.

(** A [game_over] whose payload decodes to [data]. *)
Lemma handleMessage_game_over msg message data gs pid opp w :
  Unmarshal msg zeroMessage = (message, None) ->
  Type_ message = "game_over" ->
  Unmarshal (Data message) zeroGameOver = (data, None) ->
  exists w',
    handleMessage msg (Some gs) pid (Some opp) w
    = Done (Some {| GamePuzzle := GamePuzzle gs;
                    Player1State := Player1State gs;
                    Player2State := Player2State gs;
                    StartTime := StartTime gs;
                    IsFinished := true |}) w'
    /\ wire w' = wire w ++
         [mkFrame opp (envelope "game_over"
            (JObject [("winner", JString (Winner data))]))].
Proof.
  intros Hmsg Ht Hdata. unfold handleMessage.
  rewrite Hmsg, Ht. cbn. rewrite Hdata.
  io_simpl; io_write; (eexists; split; [reflexivity|]; done).
Qed.

(** ** The messages of a match *)

Lemma pump_handleMessage m side msg gameState :
  pump m side msg gameState
  = handleMessage msg gameState (playerID side) (Some (opponentConn m side)).
Proof. by destruct side. Qed.

Lemma relay_cons m side msg rest gs w gs1 w1 :
  pump m side msg (Some gs) w = Done (Some gs1) w1 ->
  relay m ((side, msg) :: rest) (Some gs) w = relay m rest (Some gs1) w1.
Proof. intros Hp. cbn. by rewrite (bind_Done _ _ _ _ _ Hp). Qed.

(** A match never stops on a panic, keeps its puzzle and start time, and
    keeps the flag once it is set. *)
Lemma relay_total m reads : forall gs w,
  exists gs' w',
    relay m reads (Some gs) w = Done (Some gs') w'
    /\ GamePuzzle gs' = GamePuzzle gs
    /\ StartTime gs' = StartTime gs
    /\ (IsFinished gs = true -> IsFinished gs' = true).
Proof.
  induction reads as [|[side msg] rest IH]; intros gs w.
  - exists gs, w. by cbn.
  - destruct (handleMessage_total msg gs (playerID side)
                (Some (opponentConn m side)) w)
      as (gs1 & w1 & Hrun & Hp & Ht & _ & _ & Hf).
    rewrite <- pump_handleMessage in Hrun.
    destruct (IH gs1 w1) as (gs' & w' & Hrest & Hp' & Ht' & Hf').
    exists gs', w'. rewrite (relay_cons _ _ _ _ _ _ _ _ Hrun).
    repeat split; [done | congruence | congruence |].
    intros Hfin. apply Hf'. destruct Hf as [Hf | [Hf _]]; congruence.
Qed.

Lemma relay_app m pre post : forall gs w gs1 w1,
  relay m pre (Some gs) w = Done (Some gs1) w1 ->
  relay m (pre ++ post) (Some gs) w = relay m post (Some gs1) w1.
Proof.
  induction pre as [|[side msg] rest IH]; intros gs w gs1 w1 Hpre.
  - cbn in Hpre. by injection Hpre as -> ->.
  - destruct (handleMessage_total msg gs (playerID side)
                (Some (opponentConn m side)) w) as (gs2 & w2 & Hrun & _).
    rewrite <- pump_handleMessage in Hrun.
    rewrite (relay_cons _ _ _ _ _ _ _ _ Hrun) in Hpre.
    rewrite <- app_comm_cons, (relay_cons _ _ _ _ _ _ _ _ Hrun).
    by apply IH.
Qed.

Example update_from_player1 :
  exists w',
    handleMessage Sample.update (Some Sample.gs0) "player1" (Some 2) Sample.w0
    = Done (Some {| GamePuzzle := dummyPuzzle;
                    Player1State := {[ "1A1" := "C" ]};
                    Player2State := ∅;
                    StartTime := mkTime "2025-03-01T12:00:00Z";
                    IsFinished := false |}) w'
    /\ wire w' = [mkFrame 2 Sample.update]
    /\ logs w' = ["Board update from player1: cell 1A1 set to C"].
Proof. eexists. split; [reflexivity|]. split; reflexivity. Qed.

Example unknown_type_foo :
  exists w',
    handleMessage (envelope "foo" JNull) (Some Sample.gs0) "player1" (Some 2)
      Sample.w0 = Done (Some Sample.gs0) w'
    /\ wire w' = []
    /\ logs w' = ["Received unknown message type: foo"].
Proof. eexists. split; [reflexivity|]. split; reflexivity. Qed.

(** ** Main results on the dispatcher *)

(** C1. A well-formed [board_update] envelope with the payload fields
    [cell] and [letter], handled for a side with a game state and an
    opponent connection, sets the grid map of that side at [cell] to
    [letter] and writes exactly one frame to the opponent: a
    [board_update] envelope with the same [cell] and [letter]. *)
Theorem board_update_applied_and_forwarded :
  forall (side : Side) (cell letter : string) (msg : bytes)
         (payload : list (string * json)) (gs : GameState)
         (opponent : websocket_Conn) (w : World),
    envelope_of "board_update" (JObject payload) msg ->
    payload ≡ₚ [("cell", JString cell); ("letter", JString letter)] ->
    exists gs' w',
      handleMessage msg (Some gs) (playerID side) (Some opponent) w
      = Done (Some gs') w'
      /\ grid side gs' = <[cell := letter]> (grid side gs)
      /\ wire w' = wire w ++
           [mkFrame opponent
              (envelope "board_update"
                 (JObject [("cell", JString cell);
                           ("letter", JString letter)]))].
Proof.
  intros side cell letter msg payload gs opponent w Henv Hpayload.
  apply (handleMessage_board_update msg
           {| Type_ := "board_update"; Data := Text (JObject payload) |}
           {| Cell := cell; Letter := letter |}).
  - by apply Unmarshal_envelope.
  - reflexivity.
  - by apply Unmarshal_board_update.
Qed.

Lemma board_update_applied_and_forwarded_witness :
  exists gs' w',
    handleMessage Sample.update (Some Sample.gs0) "player1" (Some 2) Sample.w0
    = Done (Some gs') w'
    /\ grid player1 gs' = <["1A1" := "C"]> (grid player1 Sample.gs0)
    /\ wire w' = wire Sample.w0 ++ [mkFrame 2 Sample.update].
Proof.
  apply (board_update_applied_and_forwarded player1 "1A1" "C" Sample.update
           [("cell", JString "1A1"); ("letter", JString "C")]
           Sample.gs0 2 Sample.w0).
  - eexists. split; reflexivity.
  - reflexivity.
Defined.

(** C2, as the code has it.  A [board_update] whose payload does not
    decode (json.Unmarshal returns an error) is dropped: the call returns
    with the game state as it was and writes to no connection. *)
Theorem undecodable_board_update_dropped :
  forall (msg : bytes) (message : Message) (e : error)
         (gameState : option GameState) (pid : string)
         (opp : option websocket_Conn) (w : World),
    Unmarshal msg zeroMessage = (message, None) ->
    Type_ message = "board_update" ->
    (Unmarshal (Data message) zeroBoardUpdate).2 = Some e ->
    dropped msg gameState pid opp w.
Proof.
  intros msg message e gameState pid opp w Hmsg Ht Hdata.
  unfold dropped, handleMessage. rewrite Hmsg, Ht. cbn.
  destruct (Unmarshal (Data message) zeroBoardUpdate) as [data err].
  cbn in Hdata. subst err. io_simpl. eauto.
Qed.

Lemma undecodable_board_update_dropped_witness :
  dropped Sample.update_with_number (Some Sample.gs0) "player1" (Some 2)
    Sample.w0.
Proof.
  apply (undecodable_board_update_dropped Sample.update_with_number
           {| Type_ := "board_update";
              Data := Text (JObject [("cell", JString "1A1");
                                     ("letter", JNumber "3")]) |}
           (UnmarshalTypeError "number")
           (Some Sample.gs0) "player1" (Some 2) Sample.w0);
    reflexivity.
Defined.

(** C2 fails for a payload without [letter]: the payload decodes with the
    empty string for the letter, the grid of the sender gets an entry and
    the opponent gets a frame. *)
Lemma board_update_without_letter_not_dropped :
  (exists gs' w',
      handleMessage Sample.update_without_letter (Some Sample.gs0) "player1"
        (Some 2) Sample.w0 = Done (Some gs') w'
      /\ Player1State Sample.gs0 !! "1A1" = None
      /\ Player1State gs' !! "1A1" = Some EmptyString
      /\ wire w' =
           [mkFrame 2
              (envelope "board_update"
                 (JObject [("cell", JString "1A1");
                           ("letter", JString EmptyString)]))])
  /\ ~ dropped Sample.update_without_letter (Some Sample.gs0) "player1"
         (Some 2) Sample.w0.
Proof.
  split.
  - eexists _, _. split; [reflexivity|]. cbn. repeat split; reflexivity.
  - intros (w' & Hrun & Hwire).
    cbn in Hrun. injection Hrun as _ Hw. subst w'. discriminate Hwire.
Qed.

(** C8. Whatever the envelope, a call for one side with a game state
    returns and leaves the grid map of the other side, the puzzle and the
    start time as they were. *)
Theorem dispatch_leaves_other_fields :
  forall (side : Side) (msg : bytes) (gs : GameState)
         (opp : option websocket_Conn) (w : World),
    exists gs' w',
      handleMessage msg (Some gs) (playerID side) opp w = Done (Some gs') w'
      /\ grid (opposite side) gs' = grid (opposite side) gs
      /\ GamePuzzle gs' = GamePuzzle gs
      /\ StartTime gs' = StartTime gs.
Proof.
  intros side msg gs opp w.
  destruct (handleMessage_total msg gs (playerID side) opp w)
    as (gs' & w' & Hrun & Hp & Ht & H1 & H2 & _).
  exists gs', w'. repeat split; try done.
  destruct side; cbn; [apply H2 | apply H1]; discriminate.
Qed.

(** C9. Without a game state, as in the loop of a waiting connection, a
    call returns for every envelope (no panic) and there is still no game
    state; in the waiting loop nothing is written to a connection and the
    waiting slot stays as it is. *)
Theorem nil_state_dispatch_is_safe :
  forall (msg : bytes) (pid : string) (opp : option websocket_Conn)
         (player : Player) (slot : option Player) (w : World),
    (exists w', handleMessage msg None pid opp w = Done None w')
    /\ (exists w',
          wsHandler_waiting player msg None slot w = Done slot w'
          /\ wire w' = wire w).
Proof.
  intros msg pid opp player slot w. split.
  - destruct (handleMessage_nil msg pid opp w) as (w' & Hrun & _). eauto.
  - destruct (handleMessage_nil msg "waiting" None w) as (w' & Hrun & Hwire).
    exists w'. unfold wsHandler_waiting.
    rewrite (bind_Done _ _ _ _ _ Hrun). split; [done | by apply Hwire].
Qed.

(** C10. The flag [IsFinished] is monotone.  One call changes it only to
    [true], and only for a message of type [game_over]; so once it is
    set, it stays set through every further call and through every run of
    a match. *)
Theorem finished_is_monotone :
  forall (m : Match) (reads : list (Side * bytes)) (msg : bytes)
         (pid : string) (opp : option websocket_Conn)
         (gs : GameState) (w : World),
    (exists gs' w',
        handleMessage msg (Some gs) pid opp w = Done (Some gs') w'
        /\ (IsFinished gs' = IsFinished gs
            \/ IsFinished gs' = true
               /\ Type_ (Unmarshal msg zeroMessage).1 = "game_over")
        /\ (IsFinished gs = true -> IsFinished gs' = true))
    /\ (exists gs' w',
          relay m reads (Some gs) w = Done (Some gs') w'
          /\ (IsFinished gs = true -> IsFinished gs' = true)).
Proof.
  intros m reads msg pid opp gs w. split.
  - destruct (handleMessage_total msg gs pid opp w)
      as (gs' & w' & Hrun & _ & _ & _ & _ & Hf).
    exists gs', w'. repeat split; [done | done |].
    intros Hfin. destruct Hf as [Hf | [Hf _]]; congruence.
  - destruct (relay_total m reads gs w) as (gs' & w' & Hrun & _ & _ & Hf).
    eauto.
Qed.

Lemma finished_is_monotone_witness :
  exists gs' w',
    relay Sample.game
      [(player1, Sample.update); (player2, Sample.heartbeat);
       (player2, Sample.update_without_letter)]
      (Some Sample.finished) Sample.w0 = Done (Some gs') w'
    /\ IsFinished gs' = true.
Proof.
  destruct (finished_is_monotone Sample.game
              [(player1, Sample.update); (player2, Sample.heartbeat);
               (player2, Sample.update_without_letter)]
              Sample.heartbeat "player1" None Sample.finished Sample.w0)
    as [_ (gs' & w' & Hrun & Hf)].
  exists gs', w'. split; [exact Hrun | apply Hf; reflexivity].
Defined.

(** C3. In every run of a match, a [game_over] envelope from either side
    sets [IsFinished], and the flag is still set at the end of the run;
    the call writes exactly one frame, a [game_over] envelope with the same
    winner, to the opponent of the sender; and a [game_over] handled again,
    from either side, leaves the game state as the first one left it. *)
Theorem game_over_finishes_and_forwards :
  forall (m : Match) (pre post : list (Side * bytes)) (side : Side)
         (msg : bytes) (winner : string) (gs : GameState) (w : World),
    envelope_of "game_over" (JObject [("winner", JString winner)]) msg ->
    exists gs1 w1 gs2 w2 gs3 w3,
      relay m pre (Some gs) w = Done (Some gs1) w1
      /\ pump m side msg (Some gs1) w1 = Done (Some gs2) w2
      /\ relay m post (Some gs2) w2 = Done (Some gs3) w3
      /\ relay m (pre ++ (side, msg) :: post) (Some gs) w = Done (Some gs3) w3
      /\ IsFinished gs2 = true
      /\ IsFinished gs3 = true
      /\ wire w2 = wire w1 ++
           [mkFrame (opponentConn m side)
              (envelope "game_over" (JObject [("winner", JString winner)]))]
      /\ (forall side' msg' winner' w',
            envelope_of "game_over" (JObject [("winner", JString winner')]) msg' ->
            exists w'', pump m side' msg' (Some gs2) w' = Done (Some gs2) w'').
Proof.
  intros m pre post side msg winner gs w Henv.
  assert (Hover : forall side0 msg0 winner0 gs0 w0,
    envelope_of "game_over" (JObject [("winner", JString winner0)]) msg0 ->
    exists w',
      pump m side0 msg0 (Some gs0) w0
      = Done (Some {| GamePuzzle := GamePuzzle gs0;
                      Player1State := Player1State gs0;
                      Player2State := Player2State gs0;
                      StartTime := StartTime gs0;
                      IsFinished := true |}) w'
      /\ wire w' = wire w0 ++
           [mkFrame (opponentConn m side0)
              (envelope "game_over" (JObject [("winner", JString winner0)]))]).
  { intros side0 msg0 winner0 gs0 w0 Henv0. rewrite pump_handleMessage.
    apply (handleMessage_game_over msg0
             {| Type_ := "game_over";
                Data := Text (JObject [("winner", JString winner0)]) |}
             {| Winner := winner0 |}).
    - by apply Unmarshal_envelope.
    - reflexivity.
    - reflexivity. }
  destruct (relay_total m pre gs w) as (gs1 & w1 & Hpre & _).
  destruct (Hover side msg winner gs1 w1 Henv) as (w2 & Hmid & Hwire).
  set (gs2 := {| GamePuzzle := GamePuzzle gs1;
                 Player1State := Player1State gs1;
                 Player2State := Player2State gs1;
                 StartTime := StartTime gs1;
                 IsFinished := true |}) in *.
  destruct (relay_total m post gs2 w2) as (gs3 & w3 & Hpost & _ & _ & Hfin).
  exists gs1, w1, gs2, w2, gs3, w3.
  repeat split; try done.
  - rewrite (relay_app _ _ _ _ _ _ _ Hpre).
    by rewrite (relay_cons _ _ _ _ _ _ _ _ Hmid).
  - by apply Hfin.
  - intros side' msg' winner' w' Henv'.
    destruct (Hover side' msg' winner' gs2 w' Henv') as (w'' & Hrun & _).
    exists w''. exact Hrun.
Qed.

Lemma game_over_finishes_and_forwards_witness :
  exists gs1 w1 gs2 w2 gs3 w3,
    relay Sample.game [(player1, Sample.update)] (Some Sample.gs0) Sample.w0
    = Done (Some gs1) w1
    /\ pump Sample.game player2 Sample.over (Some gs1) w1 = Done (Some gs2) w2
    /\ relay Sample.game [(player1, Sample.over)] (Some gs2) w2
       = Done (Some gs3) w3
    /\ relay Sample.game
         ([(player1, Sample.update)] ++
          (player2, Sample.over) :: [(player1, Sample.over)])
         (Some Sample.gs0) Sample.w0 = Done (Some gs3) w3
    /\ IsFinished gs2 = true
    /\ IsFinished gs3 = true
    /\ wire w2 = wire w1 ++ [mkFrame 1 Sample.over]
    /\ (forall side' msg' winner' w',
          envelope_of "game_over" (JObject [("winner", JString winner')]) msg' ->
          exists w'', pump Sample.game side' msg' (Some gs2) w' = Done (Some gs2) w'').
Proof.
  apply (game_over_finishes_and_forwards Sample.game
           [(player1, Sample.update)] [(player1, Sample.over)] player2
           Sample.over "player1" Sample.gs0 Sample.w0).
  eexists. split; reflexivity.
Defined.

(** * Properties of the matchmaking *)

(** The first arrival waits. *)
Lemma wsHandler_waits player w :
  wsHandler player None w
  = Done (Some player, None) (add_log ("Player waiting: " +:+ ID player) w).
Proof. reflexivity. Qed.

(** The second arrival starts a match with the waiting player: the slot
    is emptied, the game state is fresh and both players are written the
    [game_start] message, the waiting player first. *)
Lemma wsHandler_pairs player opponent w :
  exists gs w',
    wsHandler player (Some opponent) w
    = Done (None, Some ({| Player1 := opponent; Player2 := player |}, gs)) w'
    /\ gs = {| GamePuzzle := loadedPuzzle w;
               Player1State := ∅;
               Player2State := ∅;
               StartTime := clock w;
               IsFinished := false |}
    /\ wire w' = wire w ++
         [mkFrame (Conn opponent) (game_start gs);
          mkFrame (Conn player) (game_start gs)].
Proof.
  unfold wsHandler, loadedPuzzle, game_start. io_simpl.
  destruct (sql_open w _ _) as [db [e|]]; io_simpl;
    [|destruct (db_ping w db) as [e|]; io_simpl;
      [|destruct (db_load w db 1) as [puzzle [e|]]; io_simpl]];
    do 2 io_write;
    (eexists _, _; split; [reflexivity|]; split; [reflexivity|]);
    cbn; by rewrite <- app_assoc.
Qed.

(** The JSON of the fallback puzzle. *)
Lemma marshal_dummyPuzzle :
  marshal_Puzzle dummyPuzzle
  = JObject
      [("grid", JString "dummy grid layout");
       ("clues",
        JObject [("7-Across", JString "Example clue for 7-Across");
                 ("7-Down", JString "Example clue for 7-Down")]);
       ("answers",
        JObject [("7-Across", JString "EXAMPLE");
                 ("7-Down", JString "EXAMPLE")])].
Proof. vm_compute. reflexivity. Qed.

(** C4, as the code has it.  When a match is formed, the server writes to
    both players an envelope whose type tag is [game_start]; its payload
    holds the puzzle and the start time of the game state of the match. *)
Theorem game_start_sent_to_both :
  forall (player opponent : Player) (w : World),
    exists gs w',
      wsHandler player (Some opponent) w
      = Done (None, Some ({| Player1 := opponent; Player2 := player |}, gs)) w'
      /\ StartTime gs = clock w
      /\ wire w' = wire w ++
           [mkFrame (Conn opponent)
              (envelope "game_start"
                 (JObject [("puzzle", marshal_Puzzle (GamePuzzle gs));
                           ("start_time", JString (RFC3339 (StartTime gs)))]));
            mkFrame (Conn player)
              (envelope "game_start"
                 (JObject [("puzzle", marshal_Puzzle (GamePuzzle gs));
                           ("start_time", JString (RFC3339 (StartTime gs)))]))].
Proof.
  intros player opponent w.
  destruct (wsHandler_pairs player opponent w) as (gs & w' & Hrun & Hgs & Hwire).
  exists gs, w'. repeat split; [done | by subst gs | done].
Qed.

(** C4 fails for the tag: at the start of the match of [alice] and [bob]
    two frames are written, both of type [game_start]; no frame has the
    type [session_start]. *)
Lemma start_tag_is_not_session_start :
  frame_type <$> written (wsHandler Sample.bob (Some Sample.alice) Sample.w0)
  = ["game_start"; "game_start"]
  /\ ~ (exists f,
          f ∈ written (wsHandler Sample.bob (Some Sample.alice) Sample.w0)
          /\ frame_type f = "session_start").
Proof.
  split; [reflexivity|].
  intros (f & Hin & Htag). cbn in Hin.
  apply elem_of_cons in Hin as [-> | Hin]; [discriminate Htag|].
  apply elem_of_cons in Hin as [-> | Hin]; [discriminate Htag|].
  by apply elem_of_nil in Hin.
Qed.

(** C7. When the database cannot be reached, or the puzzle cannot be
    loaded, the match still starts, its puzzle is [dummyPuzzle], and the
    start message written to both players holds the grid, the clues and
    the answers of that puzzle. *)
Theorem puzzle_failure_falls_back :
  forall (player opponent : Player) (w : World),
    puzzle_lookup_fails w ->
    exists gs w',
      wsHandler player (Some opponent) w
      = Done (None, Some ({| Player1 := opponent; Player2 := player |}, gs)) w'
      /\ GamePuzzle gs = dummyPuzzle
      /\ wire w' = wire w ++
           (mkFrame (Conn opponent) (game_start gs)
            :: mkFrame (Conn player) (game_start gs) :: [])
      /\ game_start gs
         = envelope "game_start"
             (JObject
                [("puzzle",
                  JObject
                    [("grid", JString "dummy grid layout");
                     ("clues",
                      JObject
                        [("7-Across", JString "Example clue for 7-Across");
                         ("7-Down", JString "Example clue for 7-Down")]);
                     ("answers",
                      JObject [("7-Across", JString "EXAMPLE");
                               ("7-Down", JString "EXAMPLE")])]);
                 ("start_time", JString (RFC3339 (clock w)))]).
Proof.
  intros player opponent w Hfail.
  destruct (wsHandler_pairs player opponent w) as (gs & w' & Hrun & Hgs & Hwire).
  assert (Hp : loadedPuzzle w = dummyPuzzle).
  { destruct Hfail as (db & err & Hconn & Hfail). unfold loadedPuzzle.
    rewrite Hconn. destruct err as [e|]; [done|].
    destruct Hfail as [Hfail | (puzzle & e & Hload)]; [done|].
    by rewrite Hload. }
  exists gs, w'. subst gs. rewrite Hp in *.
  split; [exact Hrun|]. split; [reflexivity|]. split; [exact Hwire|].
  unfold game_start. cbn [GamePuzzle StartTime]. by rewrite marshal_dummyPuzzle.
Qed.

Lemma puzzle_failure_falls_back_witness :
  exists gs w',
    wsHandler Sample.bob (Some Sample.alice) Sample.w0
    = Done (None, Some ({| Player1 := Sample.alice; Player2 := Sample.bob |}, gs)) w'
    /\ GamePuzzle gs = dummyPuzzle
    /\ wire w' = wire Sample.w0 ++
         (mkFrame (Conn Sample.alice) (game_start gs)
          :: mkFrame (Conn Sample.bob) (game_start gs) :: [])
    /\ game_start gs
       = envelope "game_start"
           (JObject
              [("puzzle",
                JObject
                  [("grid", JString "dummy grid layout");
                   ("clues",
                    JObject
                      [("7-Across", JString "Example clue for 7-Across");
                       ("7-Down", JString "Example clue for 7-Down")]);
                   ("answers",
                    JObject [("7-Across", JString "EXAMPLE");
                             ("7-Down", JString "EXAMPLE")])]);
               ("start_time", JString (RFC3339 (clock Sample.w0)))]).
Proof.
  apply (puzzle_failure_falls_back Sample.bob Sample.alice Sample.w0).
  eexists _, _. split; [reflexivity|]. left. discriminate.
Defined.

(** ** The waiting slot *)

(** A read error in the waiting loop of [player] empties the slot when the
    player in it has the ID of [player], and only then. *)
Lemma wsHandler_waiting_error player msg e slot w :
  wsHandler_waiting player msg (Some e) slot w
  = Done
      match slot with
      | Some wp => if String.eqb (ID wp) (ID player) then None else slot
      | None => slot
      end
      (add_log ("Player disconnected while waiting: " +:+ ID player) w).
Proof. reflexivity. Qed.

(** A message in the waiting loop leaves the slot and the wire alone. *)
Lemma wsHandler_waiting_message player msg slot w :
  exists w',
    wsHandler_waiting player msg None slot w = Done slot w'
    /\ wire w' = wire w.
Proof.
  destruct (handleMessage_nil msg "waiting" None w) as (w' & Hrun & Hwire).
  exists w'. unfold wsHandler_waiting.
  rewrite (bind_Done _ _ _ _ _ Hrun). split; [done | by apply Hwire].
Qed.

Lemma serve_cons ev rest sv w sv1 w1 :
  step ev sv w = Done sv1 w1 ->
  serve (ev :: rest) sv w = serve rest sv1 w1.
Proof. intros Hs. cbn. by rewrite (bind_Done _ _ _ _ _ Hs). Qed.

Lemma step_Connect_waits player started w :
  exists w',
    step (Connect player) {| waitingPlayer := None; matches := started |} w
    = Done {| waitingPlayer := Some player; matches := started |} w'.
Proof.
  eexists. unfold step. cbn [waitingPlayer matches].
  rewrite (bind_Done _ _ _ _ _ (wsHandler_waits player w)).
  cbn. by rewrite app_nil_r.
Qed.

Lemma step_Connect_pairs player opponent started w :
  exists gs w',
    step (Connect player)
      {| waitingPlayer := Some opponent; matches := started |} w
    = Done {| waitingPlayer := None;
              matches := started ++
                [({| Player1 := opponent; Player2 := player |}, gs)] |} w'.
Proof.
  destruct (wsHandler_pairs player opponent w) as (gs & w' & Hrun & _).
  exists gs, w'. unfold step. cbn [waitingPlayer matches].
  by rewrite (bind_Done _ _ _ _ _ Hrun).
Qed.

Lemma step_WaitingRead_message player msg sv w :
  exists w', step (WaitingRead player msg None) sv w = Done sv w'.
Proof.
  destruct (wsHandler_waiting_message player msg (waitingPlayer sv) w)
    as (w' & Hrun & _).
  exists w'. unfold step. rewrite (bind_Done _ _ _ _ _ Hrun).
  by destruct sv.
Qed.

Lemma step_total ev sv w :
  exists sv' w' new,
    step ev sv w = Done sv' w'
    /\ matches sv' = matches sv ++ new
    /\ (forall m g p, (m, g) ∈ new -> p ∈ [Player1 m; Player2 m] ->
        known sv [ev] p)
    /\ (forall p, waitingPlayer sv' = Some p -> known sv [ev] p).
Proof.
  destruct sv as [slot started], ev as [player | player msg [e|]].
  - destruct slot as [opponent|].
    + destruct (step_Connect_pairs player opponent started w)
        as (gs & w' & Hrun).
      eexists _, w', _. split; [exact Hrun|]. split; [reflexivity|].
      unfold known. cbn. split; [|done].
      intros m g p Hin Hp. apply list_elem_of_singleton in Hin.
      injection Hin as -> ->. cbn in Hp.
      apply elem_of_cons in Hp as [-> | Hp]; [by left | right].
      apply list_elem_of_singleton in Hp as ->.
      by apply list_elem_of_singleton.
    + destruct (step_Connect_waits player started w) as (w' & Hrun).
      eexists _, w', []. split; [exact Hrun|]. split; [by rewrite app_nil_r|].
      unfold known. cbn. split; [intros m g p Hin; by apply elem_of_nil in Hin|].
      intros p [= ->]. right. by apply list_elem_of_singleton.
  - eexists _, _, []. unfold step. cbn [waitingPlayer matches].
    rewrite (bind_Done _ _ _ _ _ (wsHandler_waiting_error _ _ _ _ _)).
    split; [reflexivity|]. split; [by rewrite app_nil_r|].
    unfold known. cbn. split; [intros m g p Hin; by apply elem_of_nil in Hin|].
    intros p Hp. left. destruct slot as [wp|]; [|done].
    by destruct (String.eqb (ID wp) (ID player)).
  - destruct (step_WaitingRead_message player msg
                {| waitingPlayer := slot; matches := started |} w)
      as (w' & Hrun).
    eexists _, w', []. split; [exact Hrun|]. split; [by rewrite app_nil_r|].
    unfold known. split; [intros m g p Hin; by apply elem_of_nil in Hin|].
    auto.
Qed.

(** The server never stops on a panic; it only adds matches, and their
    players are the one who waited at the beginning or arrived since. *)
Lemma serve_total evs : forall sv w,
  exists sv' w' new,
    serve evs sv w = Done sv' w'
    /\ matches sv' = matches sv ++ new
    /\ (forall m g p, (m, g) ∈ new -> p ∈ [Player1 m; Player2 m] ->
        known sv evs p)
    /\ (forall p, waitingPlayer sv' = Some p -> known sv evs p).
Proof.
  induction evs as [|ev rest IH]; intros sv w.
  - exists sv, w, []. split; [reflexivity|]. split; [by rewrite app_nil_r|].
    unfold known. split; [intros m g p Hin; by apply elem_of_nil in Hin|].
    auto.
  - destruct (step_total ev sv w) as (sv1 & w1 & new1 & Hs & Hm1 & Hn1 & Hw1).
    destruct (IH sv1 w1) as (sv' & w' & new & Hrest & Hm & Hn & Hw).
    assert (Hknown : forall p, known sv1 rest p -> known sv (ev :: rest) p).
    { intros p [Hp | Hp].
      - destruct (Hw1 p Hp) as [Hq | Hq]; [by left | right].
        apply list_elem_of_singleton in Hq as <-. apply elem_of_cons. by left.
      - right. apply elem_of_cons. by right. }
    exists sv', w', (new1 ++ new). rewrite (serve_cons _ _ _ _ _ _ Hs).
    split; [exact Hrest|]. split; [by rewrite Hm, Hm1, app_assoc|].
    split.
    + intros m g p Hin Hp. apply elem_of_app in Hin as [Hin | Hin].
      * destruct (Hn1 m g p Hin Hp) as [Hq | Hq]; [by left | right].
        apply list_elem_of_singleton in Hq as <-. apply elem_of_cons. by left.
      * apply Hknown. by apply (Hn m g).
    + intros p Hp. apply Hknown. by apply Hw.
Qed.

(** Messages that are no read errors leave the server as it is. *)
Lemma serve_messages mid : forall sv w,
  Forall is_message mid ->
  exists w', serve mid sv w = Done sv w'.
Proof.
  induction mid as [|ev rest IH]; intros sv w Hmid.
  - by exists w.
  - apply Forall_cons in Hmid as [(player & msg & ->) Hrest].
    destruct (step_WaitingRead_message player msg sv w) as (w1 & Hs).
    rewrite (serve_cons _ _ _ _ _ _ Hs). by apply IH.
Qed.

Lemma serve_app pre post : forall sv w sv1 w1,
  serve pre sv w = Done sv1 w1 ->
  serve (pre ++ post) sv w = serve post sv1 w1.
Proof.
  induction pre as [|ev rest IH]; intros sv w sv1 w1 Hpre.
  - cbn in Hpre. by injection Hpre as -> ->.
  - destruct (step_total ev sv w) as (sv2 & w2 & new & Hs & _).
    rewrite (serve_cons _ _ _ _ _ _ Hs) in Hpre.
    rewrite <- app_comm_cons, (serve_cons _ _ _ _ _ _ Hs). by apply IH.
Qed.

(** ** Main results on the matchmaking *)

Example three_arrivals :
  exists gs w',
    serve [Connect Sample.alice; Connect Sample.bob; Connect Sample.carol]
      {| waitingPlayer := None; matches := [] |} Sample.w0
    = Done {| waitingPlayer := Some Sample.carol;
              matches := [({| Player1 := Sample.alice;
                              Player2 := Sample.bob |}, gs)] |} w'.
Proof. eexists _, _. reflexivity. Qed.

(** Two players connect, a match starts, and the first player fills a
    cell: the second player is written the same envelope and the grid of
    the first player holds the letter. *)
Example end_to_end :
  exists gs w1 gs' w2,
    serve [Connect Sample.alice; Connect Sample.bob]
      {| waitingPlayer := None; matches := [] |} Sample.w0
    = Done {| waitingPlayer := None; matches := [(Sample.game, gs)] |} w1
    /\ relay Sample.game [(player1, Sample.update)] (Some gs) w1
       = Done (Some gs') w2
    /\ Player1State gs' !! "1A1" = Some "C"
    /\ wire w2 = wire w1 ++ [mkFrame (Conn Sample.bob) Sample.update].
Proof.
  eexists _, _, _, _. split; [reflexivity|]. split; [reflexivity|].
  split; reflexivity.
Qed.

(** C5. [A] arrives at an empty slot and then [B] arrives, with no read
    error and no other arrival in between: the match that starts has [A]
    as [Player1] and [B] as [Player2]; every later match is made of
    players that arrive after [B], so [A], who does not arrive again, is
    in none of them. *)
Theorem arrivals_paired_in_order :
  forall (A B : Player) (mid rest : list Event)
         (started : list (Match * GameState)) (w : World),
    Forall is_message mid ->
    exists sv w' gs later,
      serve (Connect A :: mid ++ Connect B :: rest)
        {| waitingPlayer := None; matches := started |} w = Done sv w'
      /\ matches sv
         = started ++ ({| Player1 := A; Player2 := B |}, gs) :: later
      /\ (forall m g p,
            (m, g) ∈ later -> p ∈ [Player1 m; Player2 m] -> Connect p ∈ rest)
      /\ (Connect A ∉ rest ->
          forall m g, (m, g) ∈ later -> Player1 m <> A /\ Player2 m <> A).
Proof.
  intros A B mid rest started w Hmid.
  destruct (step_Connect_waits A started w) as (w1 & HA).
  destruct (serve_messages mid
              {| waitingPlayer := Some A; matches := started |} w1 Hmid)
    as (w2 & Hwait).
  destruct (step_Connect_pairs B A started w2) as (gs & w3 & HB).
  destruct (serve_total rest
              {| waitingPlayer := None;
                 matches := started ++
                   [({| Player1 := A; Player2 := B |}, gs)] |} w3)
    as (sv & w' & later & Hrest & Hm & Hn & _).
  assert (Hlater : forall m g p,
    (m, g) ∈ later -> p ∈ [Player1 m; Player2 m] -> Connect p ∈ rest).
  { intros m g p Hin Hp. by destruct (Hn m g p Hin Hp) as [Hq | Hq]. }
  exists sv, w', gs, later. split; [|split; [|split]].
  - rewrite (serve_cons _ _ _ _ _ _ HA), (serve_app _ _ _ _ _ _ Hwait).
    by rewrite (serve_cons _ _ _ _ _ _ HB).
  - rewrite Hm. cbn. by rewrite <- app_assoc.
  - exact Hlater.
  - intros Hfresh m g Hin.
    split; intros Heq; apply Hfresh, (Hlater m g A Hin); rewrite <- Heq.
    + apply elem_of_cons. by left.
    + apply elem_of_cons. right. by apply list_elem_of_singleton.
Qed.

Lemma arrivals_paired_in_order_witness :
  exists sv w' gs later,
    serve (Connect Sample.alice
           :: [WaitingRead Sample.alice Sample.heartbeat None]
           ++ Connect Sample.bob :: [Connect Sample.carol])
      {| waitingPlayer := None; matches := [] |} Sample.w0 = Done sv w'
    /\ matches sv
       = [] ++ ({| Player1 := Sample.alice; Player2 := Sample.bob |}, gs)
               :: later
    /\ (forall m g p,
          (m, g) ∈ later -> p ∈ [Player1 m; Player2 m] ->
          Connect p ∈ [Connect Sample.carol])
    /\ (Connect Sample.alice ∉ [Connect Sample.carol] ->
        forall m g,
          (m, g) ∈ later -> Player1 m <> Sample.alice /\ Player2 m <> Sample.alice).
Proof.
  apply (arrivals_paired_in_order Sample.alice Sample.bob
           [WaitingRead Sample.alice Sample.heartbeat None]
           [Connect Sample.carol] [] Sample.w0).
  constructor; [|constructor].
  exists Sample.alice, Sample.heartbeat. reflexivity.
Defined.

(** C6. When the read of a waiting player fails, the slot is emptied if
    it holds that player, and is left as it is if it holds a player with
    another ID; after the only waiting player is gone, the next arrival
    finds the slot empty and waits, and no match starts. *)
Theorem waiting_disconnect_clears_slot :
  forall (p q wp : Player) (msg : bytes) (e : error)
         (started : list (Match * GameState)) (w : World),
    (exists w', wsHandler_waiting p msg (Some e) (Some p) w = Done None w')
    /\ (ID wp <> ID p ->
        exists w',
          wsHandler_waiting p msg (Some e) (Some wp) w = Done (Some wp) w')
    /\ (exists w',
          serve [Connect p; WaitingRead p msg (Some e); Connect q]
            {| waitingPlayer := None; matches := started |} w
          = Done {| waitingPlayer := Some q; matches := started |} w').
Proof.
  intros p q wp msg e started w. split; [|split].
  - rewrite wsHandler_waiting_error, String.eqb_refl. eauto.
  - intros Hne. rewrite wsHandler_waiting_error.
    apply String.eqb_neq in Hne. rewrite Hne. eauto.
  - destruct (step_Connect_waits p started w) as (w1 & Hp).
    rewrite (serve_cons _ _ _ _ _ _ Hp).
    assert (Hgone :
      step (WaitingRead p msg (Some e))
        {| waitingPlayer := Some p; matches := started |} w1
      = Done {| waitingPlayer := None; matches := started |}
          (add_log ("Player disconnected while waiting: " +:+ ID p) w1)).
    { unfold step. cbn [waitingPlayer matches].
      rewrite (bind_Done _ _ _ _ _ (wsHandler_waiting_error _ _ _ _ _)).
      by rewrite String.eqb_refl. }
    rewrite (serve_cons _ _ _ _ _ _ Hgone).
    destruct (step_Connect_waits q started
                (add_log ("Player disconnected while waiting: " +:+ ID p) w1))
      as (w3 & Hq).
    rewrite (serve_cons _ _ _ _ _ _ Hq). by exists w3.
Qed.

Lemma waiting_disconnect_clears_slot_witness :
  exists w',
    wsHandler_waiting Sample.alice NilBytes
      (Some (errors_New "websocket: close 1001 (going away)"))
      (Some Sample.carol) Sample.w0 = Done (Some Sample.carol) w'.
Proof.
  destruct (waiting_disconnect_clears_slot Sample.alice Sample.bob
              Sample.carol NilBytes
              (errors_New "websocket: close 1001 (going away)") []
              Sample.w0) as (_ & Hkept & _).
  apply Hkept. discriminate.
Defined.

(** * Further properties of the dispatcher *)

Ltac io_shown :=
  eexists; split; [reflexivity|]; cbn; rewrite ?app_nil_r;
  split; [reflexivity|]; split; [|reflexivity];
  rewrite <- ?app_assoc; eexists; reflexivity.

(** [handleMessage] as a function of the message: the game state it
    leaves, the frame it writes; the log only grows and the transport is
    not touched. *)
Lemma handleMessage_effect msg gameState pid opp w :
  exists w',
    handleMessage msg gameState pid opp w
    = Done (apply_to pid msg <$> gameState) w'
    /\ wire w' = wire w ++ frames_of opp msg
    /\ (exists lines, logs w' = logs w ++ lines)
    /\ write_error w' = write_error w.
Proof.
  unfold handleMessage, apply_to, frames_of, forward_of, update_of, over_of.
  destruct (Unmarshal msg zeroMessage) as [message [e|]]; io_simpl.
  { destruct gameState, opp; io_shown. }
  destruct (String.eqb_spec (Type_ message) "board_update") as [Ht|Ht].
  { rewrite Ht. cbn.
    destruct (Unmarshal (Data message) zeroBoardUpdate) as [data [e|]];
      io_simpl.
    - destruct gameState, opp; io_shown.
    - destruct gameState as [gs|]; cbn;
        [destruct (String.eqb pid "player1");
         [|destruct (String.eqb pid "player2")]|];
        destruct opp as [c|]; io_simpl; try io_write; io_shown. }
  destruct (String.eqb_spec (Type_ message) "heartbeat") as [Hh|Hh]; io_simpl.
  { rewrite Hh. cbn. destruct gameState, opp; io_shown. }
  destruct (String.eqb_spec (Type_ message) "game_over") as [Hg|Hg]; io_simpl.
  - destruct (Unmarshal (Data message) zeroGameOver) as [data [e|]]; io_simpl.
    + destruct gameState, opp; io_shown.
    + destruct gameState as [gs|], opp as [c|]; io_simpl; try io_write;
        io_shown.
  - destruct gameState, opp; io_shown.
Qed.

Lemma update_of_type msg data :
  update_of msg = Some data ->
  Type_ (Unmarshal msg zeroMessage).1 = "board_update".
Proof.
  unfold update_of. destruct (Unmarshal msg zeroMessage) as [message [e|]];
    [done|].
  destruct (String.eqb_spec (Type_ message) "board_update"); done.
Qed.

Lemma over_of_type msg data :
  over_of msg = Some data ->
  Type_ (Unmarshal msg zeroMessage).1 = "game_over".
Proof.
  unfold over_of. destruct (Unmarshal msg zeroMessage) as [message [e|]];
    [done|].
  destruct (String.eqb_spec (Type_ message) "game_over"); done.
Qed.

Lemma update_of_not_over msg data : update_of msg = Some data -> over_of msg = None.
Proof.
  intros Hu. destruct (over_of msg) as [d|] eqn:Ho; [|done].
  apply update_of_type in Hu. apply over_of_type in Ho. congruence.
Qed.

(** X1. The game state after a call depends on the message, the player
    ID and the game state before, and on nothing else: with another
    opponent connection, or none, and in another world (a transport that
    fails, say) the call leaves the same game state. *)
Theorem state_change_ignores_transport :
  forall (msg : bytes) (gs : GameState) (pid : string)
         (opp1 opp2 : option websocket_Conn) (w1 w2 : World),
    exists gs' w1' w2',
      handleMessage msg (Some gs) pid opp1 w1 = Done (Some gs') w1'
      /\ handleMessage msg (Some gs) pid opp2 w2 = Done (Some gs') w2'.
Proof.
  intros msg gs pid opp1 opp2 w1 w2.
  destruct (handleMessage_effect msg (Some gs) pid opp1 w1) as (w1' & H1 & _).
  destruct (handleMessage_effect msg (Some gs) pid opp2 w2) as (w2' & H2 & _).
  by exists (apply_to pid msg gs), w1', w2'.
Qed.

(** X2. The frames written by a call depend on the message and on the
    opponent connection only: with another game state, or none, and for
    another player ID the same frames are written. *)
Theorem forwarding_ignores_game_state :
  forall (msg : bytes) (g1 g2 : option GameState) (pid1 pid2 : string)
         (opp : option websocket_Conn) (w : World),
    exists r1 r2 w1 w2,
      handleMessage msg g1 pid1 opp w = Done r1 w1
      /\ handleMessage msg g2 pid2 opp w = Done r2 w2
      /\ wire w1 = wire w2.
Proof.
  intros msg g1 g2 pid1 pid2 opp w.
  destruct (handleMessage_effect msg g1 pid1 opp w) as (w1 & H1 & Hw1 & _).
  destruct (handleMessage_effect msg g2 pid2 opp w) as (w2 & H2 & Hw2 & _).
  eexists _, _, w1, w2. split; [exact H1|]. split; [exact H2|]. congruence.
Qed.

(** X3. A call writes at most one frame, and never to a connection other
    than the opponent's; the frame it writes has the type of the message,
    which is [board_update] or [game_over]. *)
Theorem at_most_one_frame_to_the_opponent :
  forall (msg : bytes) (gameState : option GameState) (pid : string)
         (opp : option websocket_Conn) (w : World),
    exists r w',
      handleMessage msg gameState pid opp w = Done r w'
      /\ (wire w' = wire w
          \/ exists c f,
               opp = Some c
               /\ wire w' = wire w ++ [f]
               /\ to f = c
               /\ frame_type f = Type_ (Unmarshal msg zeroMessage).1
               /\ (frame_type f = "board_update" \/ frame_type f = "game_over")).
Proof.
  intros msg gameState pid opp w.
  destruct (handleMessage_effect msg gameState pid opp w) as (w' & Hrun & Hw & _).
  eexists _, w'. split; [exact Hrun|]. rewrite Hw.
  unfold frames_of, forward_of.
  destruct opp as [c|]; [|left; by rewrite app_nil_r].
  destruct (update_of msg) as [data|] eqn:Hu.
  { right. eexists c, _. repeat split; try reflexivity.
    - cbn. by rewrite (update_of_type _ _ Hu).
    - by left. }
  destruct (over_of msg) as [data|] eqn:Ho; [|left; by rewrite app_nil_r].
  right. eexists c, _. repeat split; try reflexivity.
  - cbn. by rewrite (over_of_type _ _ Ho).
  - by right.
Qed.

(** ** Messages that are only logged *)

(** X4. A message that the first [json.Unmarshal] rejects is dropped: the
    call returns, the game state and the wire are as before, and the log
    gets the line of the error. *)
Theorem unreadable_message_is_logged :
  forall (msg : bytes) (e : error) (gameState : option GameState)
         (pid : string) (opp : option websocket_Conn) (w : World),
    (Unmarshal msg zeroMessage).2 = Some e ->
    handleMessage msg gameState pid opp w
    = Done gameState (add_log ("Error unmarshaling message: " +:+ Error e) w).
Proof.
  intros msg e gameState pid opp w Hmsg. unfold handleMessage.
  destruct (Unmarshal msg zeroMessage) as [message err]. cbn in Hmsg.
  by subst err.
Qed.

Lemma unreadable_message_is_logged_witness :
  handleMessage (BadBytes "hello") (Some Sample.gs0) "player1" (Some 2)
    Sample.w0
  = Done (Some Sample.gs0)
      (add_log ("Error unmarshaling message: " +:+ Error SyntaxError)
         Sample.w0).
Proof.
  apply (unreadable_message_is_logged (BadBytes "hello") SyntaxError
           (Some Sample.gs0) "player1" (Some 2) Sample.w0).
  reflexivity.
Defined.

Lemma decode_Message_members kvs : forall (v : Message) saved,
  (decode_members kvs v saved).2 = None
  <-> saved = None /\ type_members_ok kvs = true.
Proof.
  induction kvs as [|[key j] rest IH]; intros v saved.
  - cbn. tauto.
  - cbn [decode_members type_members_ok forallb fst snd fields Message_Struct].
    fold (type_members_ok rest).
    destruct (find_field ["type"; "data"] key) as [f|]; [|by rewrite IH].
    cbn [store Message_Struct]. rewrite andb_true_iff.
    destruct (String.eqb f "type").
    + pose proof (decode_string_ok j (Type_ v)) as Hok.
      destruct (decode_string j (Type_ v)) as [s err]. rewrite IH.
      destruct saved, err; cbn in *; intuition congruence.
    + rewrite IH. destruct saved; cbn; intuition congruence.
Qed.

(** X5. The messages the first [json.Unmarshal] accepts are [null] and
    the objects whose [type] members, in any letter case, are strings or
    [null]: a missing [type] or [data] member is no error, and the [data]
    member may hold any value. *)
Theorem message_decodes_iff :
  forall msg : bytes,
    (Unmarshal msg zeroMessage).2 = None
    <-> msg = Text JNull
        \/ exists kvs, msg = Text (JObject kvs) /\ type_members_ok kvs = true.
Proof.
  intros msg.
  destruct msg as [|raw|[| | | | |kvs]]; cbn [Unmarshal decode_struct snd];
    try (split; [discriminate | intros [|(kvs' & ? & _)]; discriminate]).
  - split; [by left | done].
  - rewrite decode_Message_members. split.
    + intros [_ Hok]. right. by exists kvs.
    + intros [|(kvs' & [= <-] & Hok)]; [discriminate | done].
Qed.

Lemma message_decodes_iff_witness :
  (Unmarshal (Text (JObject [("TYPE", JString "heartbeat"); ("data", JBool true)]))
     zeroMessage).2 = None.
Proof.
  apply (message_decodes_iff
           (Text (JObject [("TYPE", JString "heartbeat"); ("data", JBool true)]))).
  right. eexists. split; reflexivity.
Defined.

(** X6. A [heartbeat] and a message of a type the server does not know
    are only logged, whatever their [data] member holds: the game state
    and the wire are as before.  The type is compared as it is written,
    so [Heartbeat] or the empty type of [null] are unknown types. *)
Theorem other_types_are_logged :
  forall (msg : bytes) (message : Message) (gameState : option GameState)
         (pid : string) (opp : option websocket_Conn) (w : World),
    Unmarshal msg zeroMessage = (message, None) ->
    Type_ message <> "board_update" ->
    Type_ message <> "game_over" ->
    handleMessage msg gameState pid opp w
    = Done gameState
        (add_log
           (if String.eqb (Type_ message) "heartbeat"
            then "Heartbeat received from " +:+ pid
            else "Received unknown message type: " +:+ Type_ message) w).
Proof.
  intros msg message gameState pid opp w Hmsg Hb Hg. unfold handleMessage.
  rewrite Hmsg. apply String.eqb_neq in Hb, Hg. rewrite Hb, Hg.
  by destruct (String.eqb (Type_ message) "heartbeat").
Qed.

Lemma other_types_are_logged_witness :
  handleMessage (envelope "Heartbeat" (JNumber "1")) (Some Sample.gs0)
    "player2" (Some 1) Sample.w0
  = Done (Some Sample.gs0)
      (add_log "Received unknown message type: Heartbeat" Sample.w0).
Proof.
  apply (other_types_are_logged (envelope "Heartbeat" (JNumber "1"))
           {| Type_ := "Heartbeat"; Data := Text (JNumber "1") |}
           (Some Sample.gs0) "player2" (Some 1) Sample.w0).
  - reflexivity.
  - discriminate.
  - discriminate.
Defined.

(** X7. A [game_over] whose payload does not decode, one without a [data]
    member for instance, is dropped: the flag is not set and nothing is
    written to the opponent. *)
Theorem undecodable_game_over_dropped :
  forall (msg : bytes) (message : Message) (e : error)
         (gameState : option GameState) (pid : string)
         (opp : option websocket_Conn) (w : World),
    Unmarshal msg zeroMessage = (message, None) ->
    Type_ message = "game_over" ->
    (Unmarshal (Data message) zeroGameOver).2 = Some e ->
    handleMessage msg gameState pid opp w
    = Done gameState
        (add_log ("Error parsing game_over data: " +:+ Error e) w).
Proof.
  intros msg message e gameState pid opp w Hmsg Ht Hdata.
  unfold handleMessage. rewrite Hmsg, Ht. cbn.
  destruct (Unmarshal (Data message) zeroGameOver) as [data err].
  cbn in Hdata. by subst err.
Qed.

Lemma undecodable_game_over_dropped_witness :
  handleMessage (Text (JObject [("type", JString "game_over")]))
    (Some Sample.gs0) "player1" (Some 2) Sample.w0
  = Done (Some Sample.gs0)
      (add_log ("Error parsing game_over data: " +:+ Error SyntaxError)
         Sample.w0).
Proof.
  apply (undecodable_game_over_dropped
           (Text (JObject [("type", JString "game_over")]))
           {| Type_ := "game_over"; Data := NilBytes |} SyntaxError
           (Some Sample.gs0) "player1" (Some 2) Sample.w0);
    reflexivity.
Defined.

(** ** What is forwarded *)

(** X8. The payloads written by [sendMessage] are read back by
    [json.Unmarshal] as they were: a [board_update] payload, a
    [game_over] payload, and a [Message] whose [Data] is the text of a
    value. *)
Theorem payloads_round_trip :
  forall (update : BoardUpdateData) (over : GameOverData)
         (tag : string) (payload : json),
    Unmarshal (Marshal update).1 zeroBoardUpdate = (update, None)
    /\ Unmarshal (Marshal over).1 zeroGameOver = (over, None)
    /\ Unmarshal (Marshal {| Type_ := tag; Data := Text payload |}).1
         zeroMessage
       = ({| Type_ := tag; Data := Text payload |}, None).
Proof.
  intros [cell letter] [winner] tag payload. repeat split.
Qed.



(** X10. [sendMessage] on a connection returns, whatever the type of the
    data: either marshalling fails, the error is returned and nothing is
    written, or exactly one frame is written to that connection, the
    error of the transport is returned, and the frame is an envelope that
    [json.Unmarshal] reads back with the message type given. *)
Theorem sendMessage_writes_one_envelope :
  forall (A : Type) (marshaler : Marshaler A) (conn : websocket_Conn)
         (messageType : string) (data : A) (w : World),
    exists err w',
      sendMessage (Some conn) messageType data w = Done err w'
      /\ logs w' = logs w
      /\ (err <> None /\ wire w' = wire w
          \/ exists payload,
               wire w' = wire w ++ [mkFrame conn (envelope messageType payload)]
               /\ err = write_error w (length (wire w))
               /\ Unmarshal (envelope messageType payload) zeroMessage
                  = ({| Type_ := messageType; Data := Text payload |}, None)).
Proof.
  intros A marshaler conn messageType data w. unfold sendMessage.
  destruct (Marshal data) as [dataBytes [e|]].
  { eexists _, _. split; [reflexivity|]. split; [done|]. by left. }
  destruct dataBytes as [|raw|v]; cbn.
  - eexists _, _. split; [reflexivity|]. split; [done|]. right.
    by exists JNull.
  - eexists _, _. split; [reflexivity|]. split; [done|]. by left.
  - eexists _, _. split; [reflexivity|]. split; [done|]. right.
    by exists v.
Qed.

(** * Further properties of a match *)

Lemma pump_effect m side msg gs w :
  exists w',
    pump m side msg (Some gs) w
    = Done (Some (apply_to (playerID side) msg gs)) w'
    /\ wire w' = wire w ++ frames_of (Some (opponentConn m side)) msg.
Proof.
  rewrite pump_handleMessage.
  destruct (handleMessage_effect msg (Some gs) (playerID side)
              (Some (opponentConn m side)) w) as (w' & Hrun & Hw & _).
  by exists w'.
Qed.

(** The game state after the messages [reads]. *)
Lemma relay_effect m reads : forall gs w,
  exists w',
    relay m reads (Some gs) w
    = Done (Some (foldl (fun g r => apply_to (playerID r.1) r.2 g) gs reads)) w'
    /\ wire w' = wire w ++ forwards_of m reads.
Proof.
  induction reads as [|[side msg] rest IH]; intros gs w.
  - exists w. cbn. by rewrite app_nil_r.
  - destruct (pump_effect m side msg gs w) as (w1 & Hrun & Hw1).
    destruct (IH (apply_to (playerID side) msg gs) w1) as (w' & Hrest & Hw).
    exists w'. rewrite (relay_cons _ _ _ _ _ _ _ _ Hrun).
    split; [exact Hrest|]. rewrite Hw, Hw1, <- app_assoc. f_equal.
    unfold forwards_of, frames_of. cbn.
    by destruct (forward_of msg).
Qed.

Lemma apply_to_fields pid msg gs :
  GamePuzzle (apply_to pid msg gs) = GamePuzzle gs
  /\ StartTime (apply_to pid msg gs) = StartTime gs
  /\ IsFinished (apply_to pid msg gs)
     = IsFinished gs || bool_decide (is_Some (over_of msg)).
Proof.
  unfold apply_to. destruct (update_of msg) as [data|] eqn:Hu.
  - rewrite (update_of_not_over _ _ Hu).
    destruct (String.eqb pid "player1"); [|destruct (String.eqb pid "player2")];
      cbn; by rewrite orb_false_r.
  - destruct (over_of msg); cbn; by rewrite ?orb_true_r, ?orb_false_r.
Qed.

Lemma apply_to_grid side side' msg gs :
  grid side (apply_to (playerID side') msg gs)
  = fill (grid side gs) (updates_of side [(side', msg)]).
Proof.
  unfold apply_to, updates_of, fill. cbn.
  destruct (update_of msg) as [data|] eqn:Hu.
  - destruct side, side'; by cbn.
  - destruct (over_of msg); destruct side, side'; by cbn.
Qed.

Lemma updates_of_cons side r rest :
  updates_of side (r :: rest) = updates_of side [r] ++ updates_of side rest.
Proof.
  unfold updates_of. cbn. by destruct (decide (r.1 = side)), (update_of r.2).
Qed.

(** The fields of the game state after the messages [reads]. *)
Lemma run_fields reads : forall gs,
  let gs' := foldl (fun g r => apply_to (playerID r.1) r.2 g) gs reads in
  (forall side, grid side gs' = fill (grid side gs) (updates_of side reads))
  /\ (IsFinished gs' = true
      <-> IsFinished gs = true
          \/ exists r, r ∈ reads /\ is_Some (over_of r.2))
  /\ GamePuzzle gs' = GamePuzzle gs
  /\ StartTime gs' = StartTime gs.
Proof.
  induction reads as [|[side' msg] rest IH]; intros gs.
  - cbn. repeat split; try done.
    + by left.
    + intros [Hf | (r & Hin & _)]; [done | by apply elem_of_nil in Hin].
  - cbn [foldl fst snd].
    destruct (IH (apply_to (playerID side') msg gs)) as (Hg & Hf & Hp & Ht).
    destruct (apply_to_fields (playerID side') msg gs) as (Hp1 & Ht1 & Hf1).
    repeat split.
    + intros side.
      rewrite Hg, apply_to_grid, (updates_of_cons side (side', msg) rest).
      unfold fill. by rewrite foldl_app.
    + intros Hfin. apply Hf in Hfin as [Hfin | (r & Hin & Hr)].
      * rewrite Hf1 in Hfin. apply orb_true_iff in Hfin as [Hfin | Hfin];
          [by left | right].
        apply bool_decide_eq_true in Hfin. exists (side', msg).
        split; [apply elem_of_cons; by left | done].
      * right. exists r. split; [apply elem_of_cons; by right | done].
    + intros Hfin. apply Hf. rewrite Hf1.
      destruct Hfin as [Hfin | (r & Hin & Hr)].
      * left. by rewrite Hfin.
      * apply elem_of_cons in Hin as [-> | Hin].
        -- left. cbn. rewrite (bool_decide_eq_true_2 _ Hr). apply orb_true_r.
        -- right. by exists r.
    + congruence.
    + congruence.
Qed.

(** X11. The game state at the end of a match is read off the messages:
    the grid of a side holds its updates, laid over the grid before in the
    order they were handled; the flag is set when it was set before or
    some [game_over] decoded; the puzzle and the start time are those of
    the beginning. *)
Theorem relay_final_state :
  forall (m : Match) (reads : list (Side * bytes)) (gs : GameState) (w : World),
    exists gs' w',
      relay m reads (Some gs) w = Done (Some gs') w'
      /\ (forall side,
            grid side gs' = fill (grid side gs) (updates_of side reads))
      /\ (IsFinished gs' = true
          <-> IsFinished gs = true
              \/ exists r, r ∈ reads /\ is_Some (over_of r.2))
      /\ GamePuzzle gs' = GamePuzzle gs
      /\ StartTime gs' = StartTime gs.
Proof.
  intros m reads gs w.
  destruct (relay_effect m reads gs w) as (w' & Hrun & _).
  eexists _, w'. split; [exact Hrun|]. apply run_fields.
Qed.

Lemma relay_final_state_witness :
  exists gs' w',
    relay Sample.game [(player1, Sample.update); (player2, Sample.over)]
      (Some Sample.gs0) Sample.w0 = Done (Some gs') w'
    /\ IsFinished gs' = true.
Proof.
  destruct (relay_final_state Sample.game
              [(player1, Sample.update); (player2, Sample.over)]
              Sample.gs0 Sample.w0) as (gs' & w' & Hrun & _ & Hfin & _).
  exists gs', w'. split; [exact Hrun|]. apply Hfin. right.
  exists (player2, Sample.over). split.
  - apply elem_of_cons. right. by apply list_elem_of_singleton.
  - by eexists.
Defined.

(** X12. The frames of a match are those of its messages, in the order
    the messages were handled: one frame to the opponent of the sender for
    each [board_update] and each [game_over] that decoded, none for the
    other messages. *)
Theorem relay_wire :
  forall (m : Match) (reads : list (Side * bytes)) (gs : GameState) (w : World),
    exists gs' w',
      relay m reads (Some gs) w = Done (Some gs') w'
      /\ wire w' = wire w ++ forwards_of m reads
      /\ length (forwards_of m reads)
         = length (filter (fun r : Side * bytes => is_Some (forward_of r.2)) reads).
Proof.
  intros m reads gs w.
  destruct (relay_effect m reads gs w) as (w' & Hrun & Hw).
  eexists _, w'. split; [exact Hrun|]. split; [exact Hw|].
  clear Hrun Hw. unfold forwards_of.
  induction reads as [|[side msg] rest IH]; [done|].
  rewrite filter_cons. cbn.
  destruct (forward_of msg) as [text|]; cbn.
  - case_decide as Hs; [cbn [length]; by rewrite IH | destruct Hs; by eexists].
  - case_decide as Hs; [by destruct Hs | exact IH].
Qed.

Lemma updates_of_filter side reads :
  updates_of side reads
  = omap (fun r : Side * bytes => update_of r.2)
      (filter (fun r : Side * bytes => r.1 = side) reads).
Proof.
  unfold updates_of. induction reads as [|r rest IH]; [done|].
  rewrite filter_cons. cbn. destruct (decide (r.1 = side)); cbn; by rewrite IH.
Qed.

Lemma GameState_eq (g1 g2 : GameState) :
  GamePuzzle g1 = GamePuzzle g2 ->
  (forall side, grid side g1 = grid side g2) ->
  StartTime g1 = StartTime g2 ->
  IsFinished g1 = IsFinished g2 ->
  g1 = g2.
Proof.
  destruct g1, g2. cbn. intros -> Hg -> ->.
  pose proof (Hg player1) as H1. pose proof (Hg player2) as H2.
  cbn in H1, H2. by subst.
Qed.

(** X13. The game state at the end of a match does not depend on how the
    messages of the two sides are interleaved: two runs in which every
    side sends the same messages in the same order end in the same game
    state. *)
Theorem final_state_ignores_interleaving :
  forall (m : Match) (reads1 reads2 : list (Side * bytes))
         (gs : GameState) (w1 w2 : World),
    (forall side,
       filter (fun r : Side * bytes => r.1 = side) reads1
       = filter (fun r : Side * bytes => r.1 = side) reads2) ->
    exists gs' w1' w2',
      relay m reads1 (Some gs) w1 = Done (Some gs') w1'
      /\ relay m reads2 (Some gs) w2 = Done (Some gs') w2'.
Proof.
  intros m reads1 reads2 gs w1 w2 Hsame.
  destruct (relay_effect m reads1 gs w1) as (w1' & H1 & _).
  destruct (relay_effect m reads2 gs w2) as (w2' & H2 & _).
  eexists _, w1', w2'. split; [exact H1|]. rewrite H2. do 2 f_equal.
  destruct (run_fields reads1 gs) as (Hg1 & Hf1 & Hp1 & Ht1).
  destruct (run_fields reads2 gs) as (Hg2 & Hf2 & Hp2 & Ht2).
  cbn zeta in *. apply GameState_eq; [congruence | | congruence |].
  - intros side. by rewrite Hg1, Hg2, !updates_of_filter, Hsame.
  - apply eq_true_iff_eq. rewrite Hf1, Hf2.
    assert (Hin : forall (l1 l2 : list (Side * bytes)),
      (forall side,
         filter (fun r : Side * bytes => r.1 = side) l1
         = filter (fun r : Side * bytes => r.1 = side) l2) ->
      forall r, r ∈ l1 -> r ∈ l2).
    { intros l1 l2 Hl r Hr.
      assert (Hr' : r ∈ filter (fun r0 : Side * bytes => r0.1 = r.1) l1)
        by (by apply list_elem_of_filter).
      rewrite (Hl r.1) in Hr'. by apply list_elem_of_filter in Hr' as [_ ?]. }
    split; (intros [Hf | (r & Hr & Ho)]; [by left | right]; exists r;
            split; [|done]).
    + by apply (Hin reads2 reads1).
    + by apply (Hin reads1 reads2).
Qed.

Lemma final_state_ignores_interleaving_witness :
  exists gs' w1' w2',
    relay Sample.game
      [(player1, Sample.update); (player2, Sample.over);
       (player1, Sample.heartbeat)] (Some Sample.gs0) Sample.w0
    = Done (Some gs') w1'
    /\ relay Sample.game
         [(player2, Sample.over); (player1, Sample.update);
          (player1, Sample.heartbeat)] (Some Sample.gs0) Sample.w0
       = Done (Some gs') w2'.
Proof.
  apply (final_state_ignores_interleaving Sample.game
           [(player1, Sample.update); (player2, Sample.over);
            (player1, Sample.heartbeat)]
           [(player2, Sample.over); (player1, Sample.update);
            (player1, Sample.heartbeat)]
           Sample.gs0 Sample.w0 Sample.w0).
  intros []; reflexivity.
Defined.

Lemma fill_lookup ds : forall (g : gmap string string) (cell : string),
  fill g ds !! cell
  = match last (filter (fun d => Cell d = cell) ds) with
    | Some d => Some (Letter d)
    | None => g !! cell
    end.
Proof.
  induction ds as [|d rest IH]; intros g cell; [done|].
  unfold fill in *. cbn [foldl]. rewrite IH, filter_cons.
  destruct (decide (Cell d = cell)) as [Hd | Hd].
  - destruct (filter (fun d0 => Cell d0 = cell) rest) as [|d' ds'] eqn:Hrest.
    + cbn. by rewrite <- Hd, lookup_insert_eq.
    + rewrite last_cons_cons. destruct (last (d' :: ds')) eqn:Hl; [done|].
      by apply last_None in Hl.
  - destruct (last (filter (fun d0 => Cell d0 = cell) rest)); [done|].
    by rewrite lookup_insert_ne.
Qed.

(** X14. The last update wins and no cell is ever cleared: at the end of
    a match a cell of a side holds the letter of the last update of that
    side to that cell, and what it held before when there was none. *)
Theorem last_update_wins :
  forall (m : Match) (reads : list (Side * bytes)) (gs : GameState)
         (w : World) (side : Side) (cell : string),
    exists gs' w',
      relay m reads (Some gs) w = Done (Some gs') w'
      /\ grid side gs' !! cell
         = match last (filter (fun d => Cell d = cell)
                         (updates_of side reads)) with
           | Some d => Some (Letter d)
           | None => grid side gs !! cell
           end
      /\ (is_Some (grid side gs !! cell) -> is_Some (grid side gs' !! cell)).
Proof.
  intros m reads gs w side cell.
  destruct (relay_effect m reads gs w) as (w' & Hrun & _).
  destruct (run_fields reads gs) as (Hg & _).
  eexists _, w'. split; [exact Hrun|]. cbn zeta in Hg.
  rewrite Hg, fill_lookup. split; [done|].
  by destruct (last (filter (fun d => Cell d = cell) (updates_of side reads))).
Qed.

Lemma last_update_wins_witness :
  exists gs' w',
    relay Sample.game
      [(player1, Sample.update); (player1, Sample.update_without_letter)]
      (Some Sample.gs0) Sample.w0 = Done (Some gs') w'
    /\ grid player1 gs' !! "1A1" = Some EmptyString.
Proof.
  destruct (last_update_wins Sample.game
              [(player1, Sample.update); (player1, Sample.update_without_letter)]
              Sample.gs0 Sample.w0 player1 "1A1")
    as (gs' & w' & Hrun & Hcell & _).
  exists gs', w'. split; [exact Hrun | exact Hcell].
Defined.

(** * Further properties of the matchmaking *)

(** X15. When the database answers, the match starts with the puzzle it
    returned; the grids are empty, the flag is not set and the start time
    is the time of the clock. *)
Theorem match_starts_with_loaded_puzzle :
  forall (player opponent : Player) (w : World) (db : option DB)
         (puzzle : Puzzle),
    ConnectDB w = Done (db, None) w ->
    LoadPuzzle db 1 w = Done (puzzle, None) w ->
    exists w',
      wsHandler player (Some opponent) w
      = Done (None,
              Some ({| Player1 := opponent; Player2 := player |},
                    {| GamePuzzle := puzzle;
                       Player1State := ∅;
                       Player2State := ∅;
                       StartTime := clock w;
                       IsFinished := false |})) w'.
Proof.
  intros player opponent w db puzzle Hconn Hload.
  destruct (wsHandler_pairs player opponent w) as (gs & w' & Hrun & Hgs & _).
  exists w'. rewrite Hrun, Hgs. unfold loadedPuzzle. by rewrite Hconn, Hload.
Qed.

Lemma match_starts_with_loaded_puzzle_witness :
  exists w',
    wsHandler Sample.bob (Some Sample.alice) Scene.with_database
    = Done (None,
            Some ({| Player1 := Sample.alice; Player2 := Sample.bob |},
                  {| GamePuzzle := Scene.stored;
                     Player1State := ∅;
                     Player2State := ∅;
                     StartTime := clock Scene.with_database;
                     IsFinished := false |})) w'.
Proof.
  apply (match_starts_with_loaded_puzzle Sample.bob Sample.alice
           Scene.with_database (Some 7) Scene.stored);
    reflexivity.
Defined.

(** X16. A failure to write the start message is logged and nothing
    more: the match starts, the message is written to both players, the
    second write is made after a failure of the first, and each failure
    leaves its own line in the log. *)
Theorem start_write_failures_are_logged :
  forall (player opponent : Player) (w : World),
    exists gs w',
      wsHandler player (Some opponent) w
      = Done (None, Some ({| Player1 := opponent; Player2 := player |}, gs)) w'
      /\ wire w' = wire w ++
           [mkFrame (Conn opponent) (game_start gs);
            mkFrame (Conn player) (game_start gs)]
      /\ (forall e,
            write_error w (length (wire w)) = Some e ->
            "Error sending game_start to Player1: " +:+ Error e ∈ logs w')
      /\ (forall e,
            write_error w (length (wire w) + 1) = Some e ->
            "Error sending game_start to Player2: " +:+ Error e ∈ logs w').
Proof.
  intros player opponent w.
  destruct (wsHandler_pairs player opponent w) as (gs & w' & Hrun & Hgs & Hw).
  exists gs, w'. split; [exact Hrun|]. split; [exact Hw|].
  clear Hw Hgs. revert Hrun.
  unfold wsHandler. io_simpl. rewrite ?length_app. cbn [length].
  destruct (sql_open w _ _) as [db [e0|]]; io_simpl;
    [|destruct (db_ping w db) as [e0|]; io_simpl;
      [|destruct (db_load w db 1) as [puzzle [e0|]]; io_simpl]];
    rewrite ?length_app; cbn [length];
    destruct (write_error w (length (wire w))) as [e1|]; cbn;
    rewrite ?length_app; cbn [length];
    destruct (write_error w (length (wire w) + 1)) as [e2|]; cbn;
    intros [= _ <-]; cbn; split; intros e [= <-];
    rewrite ?elem_of_app, ?list_elem_of_singleton; auto 10.
Qed.

Lemma start_write_failures_are_logged_witness :
  exists gs w',
    wsHandler Sample.bob (Some Sample.alice) Scene.first_write_fails
    = Done (None, Some ({| Player1 := Sample.alice; Player2 := Sample.bob |}, gs)) w'
    /\ wire w' = [mkFrame 1 (game_start gs); mkFrame 2 (game_start gs)]
    /\ "Error sending game_start to Player1: broken pipe" ∈ logs w'.
Proof.
  destruct (start_write_failures_are_logged Sample.bob Sample.alice
              Scene.first_write_fails)
    as (gs & w' & Hrun & Hw & H1 & _).
  exists gs, w'. split; [exact Hrun|]. split; [exact Hw|].
  apply (H1 (errors_New "broken pipe")). reflexivity.
Defined.

(** ** Pairing *)

Lemma pair_up_cons_cons p q rest :
  pair_up (p :: q :: rest)
  = ({| Player1 := p; Player2 := q |} :: (pair_up rest).1, (pair_up rest).2).
Proof. cbn. by destruct (pair_up rest). Qed.

Lemma pair_up_length : forall ps, length (pair_up ps).1 = length ps `div` 2.
Proof.
  fix IH 1. intros [|p [|q rest]]; [done | done |].
  rewrite pair_up_cons_cons. cbn [fst length]. rewrite (IH rest).
  replace (S (S (length rest))) with (length rest + 1 * 2) by lia.
  rewrite Nat.div_add by lia. lia.
Qed.

Lemma serve_pairs evs : forall slot started w,
  Forall no_read_error evs ->
  exists sv w',
    serve evs {| waitingPlayer := slot; matches := started |} w = Done sv w'
    /\ (matches sv).*1
       = started.*1 ++ (pair_up (option_list slot ++ arrivals evs)).1
    /\ waitingPlayer sv = (pair_up (option_list slot ++ arrivals evs)).2.
Proof.
  induction evs as [|ev rest IH]; intros slot started w Hevs.
  - exists {| waitingPlayer := slot; matches := started |}, w.
    split; [reflexivity|]. destruct slot; cbn; by rewrite app_nil_r.
  - apply Forall_cons in Hevs as [Hev Hrest].
    destruct ev as [player | player msg [e|]]; [| done |].
    + destruct slot as [opponent|].
      * destruct (step_Connect_pairs player opponent started w)
          as (gs & w1 & Hs).
        destruct (IH None (started ++
                    [({| Player1 := opponent; Player2 := player |}, gs)])
                    w1 Hrest) as (sv & w' & Hrun & Hm & Hw).
        exists sv, w'. rewrite (serve_cons _ _ _ _ _ _ Hs).
        split; [exact Hrun|].
        change (option_list (Some opponent) ++ arrivals (Connect player :: rest))
          with (opponent :: player :: arrivals rest).
        rewrite pair_up_cons_cons. cbn [fst snd]. split; [|exact Hw].
        rewrite Hm, fmap_app. cbn. by rewrite <- app_assoc.
      * destruct (step_Connect_waits player started w) as (w1 & Hs).
        destruct (IH (Some player) started w1 Hrest)
          as (sv & w' & Hrun & Hm & Hw).
        exists sv, w'. rewrite (serve_cons _ _ _ _ _ _ Hs). by split.
    + destruct (step_WaitingRead_message player msg
                  {| waitingPlayer := slot; matches := started |} w)
        as (w1 & Hs).
      destruct (IH slot started w1 Hrest) as (sv & w' & Hrun & Hm & Hw).
      exists sv, w'. rewrite (serve_cons _ _ _ _ _ _ Hs). by split.
Qed.

(** X17. As long as no waiting connection is lost, the arrivals are
    paired in the order they come, the first with the second, the third
    with the fourth and so on, the earlier one as [Player1]; the slot
    holds the last arrival when their number is odd and is empty when it
    is even. *)
Theorem arrivals_are_paired_two_by_two :
  forall (evs : list Event) (started : list (Match * GameState)) (w : World),
    Forall no_read_error evs ->
    exists sv w',
      serve evs {| waitingPlayer := None; matches := started |} w = Done sv w'
      /\ (matches sv).*1 = started.*1 ++ (pair_up (arrivals evs)).1
      /\ waitingPlayer sv = (pair_up (arrivals evs)).2
      /\ length (matches sv)
         = length started + length (arrivals evs) `div` 2.
Proof.
  intros evs started w Hevs.
  destruct (serve_pairs evs None started w Hevs) as (sv & w' & Hrun & Hm & Hw).
  exists sv, w'. cbn in Hm, Hw. split; [exact Hrun|]. split; [exact Hm|].
  split; [exact Hw|].
  rewrite <- (length_fmap fst (matches sv)), Hm, length_app, length_fmap.
  by rewrite pair_up_length.
Qed.

Lemma arrivals_are_paired_two_by_two_witness :
  exists sv w',
    serve [Connect Sample.alice; WaitingRead Sample.alice Sample.update None;
           Connect Sample.bob; Connect Sample.carol]
      {| waitingPlayer := None; matches := [] |} Sample.w0 = Done sv w'
    /\ (matches sv).*1 = [{| Player1 := Sample.alice; Player2 := Sample.bob |}]
    /\ waitingPlayer sv = Some Sample.carol
    /\ length (matches sv) = 1.
Proof.
  apply (arrivals_are_paired_two_by_two
           [Connect Sample.alice; WaitingRead Sample.alice Sample.update None;
            Connect Sample.bob; Connect Sample.carol] [] Sample.w0).
  repeat constructor.
Defined.

(** ** No player twice *)

Lemma players_waiting started p :
  players {| waitingPlayer := Some p; matches := started |}
  = players {| waitingPlayer := None; matches := started |} ++ [p].
Proof. unfold players. cbn. by rewrite app_nil_r. Qed.

Lemma players_paired started o p gs :
  players {| waitingPlayer := None;
             matches := started ++ [({| Player1 := o; Player2 := p |}, gs)] |}
  = players {| waitingPlayer := None; matches := started |} ++ [o; p].
Proof. unfold players. cbn. by rewrite flat_map_app, !app_nil_r. Qed.

Lemma arrivals_Connect p rest : arrivals (Connect p :: rest) = p :: arrivals rest.
Proof. reflexivity. Qed.

Lemma arrivals_WaitingRead p msg err rest :
  arrivals (WaitingRead p msg err :: rest) = arrivals rest.
Proof. reflexivity. Qed.

Lemma serve_NoDup evs : forall sv w,
  NoDup (players sv ++ arrivals evs) ->
  exists sv' w',
    serve evs sv w = Done sv' w' /\ NoDup (players sv').
Proof.
  induction evs as [|ev rest IH]; intros [slot started] w Hnd.
  - eexists _, w. split; [reflexivity|]. cbn in Hnd. by rewrite app_nil_r in Hnd.
  - destruct ev as [player | player msg [e|]].
    + destruct slot as [opponent|].
      * destruct (step_Connect_pairs player opponent started w)
          as (gs & w1 & Hs).
        rewrite (serve_cons _ _ _ _ _ _ Hs). apply IH.
        rewrite players_paired.
        rewrite players_waiting, arrivals_Connect in Hnd.
        rewrite <- !app_assoc in Hnd |- *. exact Hnd.
      * destruct (step_Connect_waits player started w) as (w1 & Hs).
        rewrite (serve_cons _ _ _ _ _ _ Hs). apply IH.
        rewrite players_waiting. rewrite arrivals_Connect in Hnd.
        rewrite <- app_assoc. exact Hnd.
    + assert (Hs :
        step (WaitingRead player msg (Some e))
          {| waitingPlayer := slot; matches := started |} w
        = Done {| waitingPlayer :=
                    match slot with
                    | Some wp =>
                        if String.eqb (ID wp) (ID player) then None else slot
                    | None => slot
                    end;
                  matches := started |}
            (add_log ("Player disconnected while waiting: " +:+ ID player) w)).
      { unfold step. cbn [waitingPlayer matches].
        by rewrite (bind_Done _ _ _ _ _ (wsHandler_waiting_error _ _ _ _ _)). }
      rewrite (serve_cons _ _ _ _ _ _ Hs). apply IH.
      rewrite arrivals_WaitingRead in Hnd.
      destruct slot as [wp|]; [|exact Hnd].
      destruct (String.eqb (ID wp) (ID player)); [|exact Hnd].
      rewrite players_waiting in Hnd.
      rewrite <- app_assoc in Hnd. apply NoDup_app in Hnd as (H1 & H2 & H3).
      apply NoDup_app. split; [exact H1|]. split.
      * intros x Hx Hin. apply (H2 x Hx). apply elem_of_cons. by right.
      * by apply NoDup_cons in H3 as [_ ?].
    + destruct (step_WaitingRead_message player msg
                  {| waitingPlayer := slot; matches := started |} w)
        as (w1 & Hs).
      rewrite (serve_cons _ _ _ _ _ _ Hs). apply IH.
      by rewrite arrivals_WaitingRead in Hnd.
Qed.

(** X18. No player is matched twice: when the players that connect are
    all different, every player is, at any time, in at most one match, at
    most once in it, and not in the slot when in a match. *)
Theorem no_player_is_matched_twice :
  forall (evs : list Event) (w : World),
    NoDup (arrivals evs) ->
    exists sv w',
      serve evs {| waitingPlayer := None; matches := [] |} w = Done sv w'
      /\ NoDup (players sv).
Proof.
  intros evs w Hnd. by apply serve_NoDup.
Qed.

Lemma no_player_is_matched_twice_witness :
  exists sv w',
    serve [Connect Sample.alice; Connect Sample.bob;
           WaitingRead Sample.alice NilBytes (Some (errors_New "EOF"));
           Connect Sample.carol]
      {| waitingPlayer := None; matches := [] |} Sample.w0 = Done sv w'
    /\ NoDup (players sv).
Proof.
  apply (no_player_is_matched_twice
           [Connect Sample.alice; Connect Sample.bob;
            WaitingRead Sample.alice NilBytes (Some (errors_New "EOF"));
            Connect Sample.carol] Sample.w0).
  cbn.
  repeat (apply NoDup_cons_2;
          [let H := fresh in
           intros H;
           repeat (apply elem_of_cons in H as [H | H]; [discriminate H|]);
           by apply elem_of_nil in H|]).
  apply NoDup_nil_2.
Defined.

(** X19. The slot is emptied by ID: a read error on one connection
    removes from the slot a player with the same ID, also when it is
    another connection. *)
Theorem disconnect_clears_slot_by_ID :
  forall (player wp : Player) (msg : bytes) (e : error) (w : World),
    ID wp = ID player ->
    wsHandler_waiting player msg (Some e) (Some wp) w
    = Done None
        (add_log ("Player disconnected while waiting: " +:+ ID player) w).
Proof.
  intros player wp msg e w Hid.
  rewrite wsHandler_waiting_error. apply String.eqb_eq in Hid. by rewrite Hid.
Qed.

Lemma disconnect_clears_slot_by_ID_witness :
  wsHandler_waiting Sample.alice NilBytes (Some (errors_New "EOF"))
    (Some Scene.alice_again) Sample.w0
  = Done None
      (add_log ("Player disconnected while waiting: " +:+ ID Sample.alice)
         Sample.w0).
Proof.
  apply (disconnect_clears_slot_by_ID Sample.alice Scene.alice_again NilBytes
           (errors_New "EOF") Sample.w0).
  reflexivity.
Defined.

(** ** The database connection *)

(** X20. [ConnectDB] returns a database or an error, never both and never
    neither when [sql.Open] gives a database: the error of [sql.Open]
    comes first, then the error of [Ping]; without error the database of
    [sql.Open] is returned.  The world is left as it is. *)
Theorem ConnectDB_database_or_error :
  forall w : World,
    exists db err,
      ConnectDB w = Done (db, err) w
      /\ (err <> None -> db = None)
      /\ (err = None ->
          db = (sql_open w "postgres"
                  "user=crossword_user password=your_password dbname=crossword_db sslmode=disable").1)
      /\ (err = None
          <-> (sql_open w "postgres"
                 "user=crossword_user password=your_password dbname=crossword_db sslmode=disable").2
              = None
              /\ db_ping w
                   (sql_open w "postgres"
                      "user=crossword_user password=your_password dbname=crossword_db sslmode=disable").1
                 = None).
Proof.
  intros w. unfold ConnectDB. io_simpl.
  destruct (sql_open w _ _) as [db [e|]]; io_simpl.
  - eexists _, _. split; [reflexivity|]. cbn. intuition congruence.
  - destruct (db_ping w db) as [e|]; io_simpl;
      (eexists _, _; split; [reflexivity|]; cbn; intuition congruence).
Qed.

Lemma ConnectDB_database_or_error_witness :
  exists db err,
    ConnectDB Sample.w0 = Done (db, err) Sample.w0 /\ db = None.
Proof.
  destruct (ConnectDB_database_or_error Sample.w0)
    as (db & err & Hrun & Hnone & _).
  exists db, err. split; [exact Hrun|]. apply Hnone.
  cbn in Hrun. injection Hrun as _ <-. discriminate.
Defined.

(** ** No panic *)


(** * Properties of db.go *)

Lemma insert_by_key_perm kv l : insert_by_key kv l ≡ₚ kv :: l.
Proof.
  induction l as [|kv' rest IH]; [done|]. cbn.
  destruct (String.leb kv.1 kv'.1); [done|].
  rewrite IH. apply Permutation_swap.
Qed.

Lemma sorted_perm (l : list (string * string)) : foldr insert_by_key [] l ≡ₚ l.
Proof.
  induction l as [|kv rest IH]; [done|]. cbn.
  by rewrite insert_by_key_perm, IH.
Qed.

Lemma decode_map_strings (l : list (string * string)) : forall m saved,
  Db.decode_map_members
    ((fun kv : string * string => (kv.1, JString kv.2)) <$> l) m saved
  = (foldl (fun acc (kv : string * string) => <[kv.1 := kv.2]> acc) m l, saved).
Proof.
  induction l as [|[k v] rest IH]; intros m saved; [done|].
  cbn. rewrite IH. by destruct saved.
Qed.

Lemma foldl_insert_union (l : list (string * string)) :
  forall m : gmap string string,
    foldl (fun acc (kv : string * string) => <[kv.1 := kv.2]> acc) m l
    = list_to_map (reverse l) ∪ m.
Proof.
  induction l as [|[k v] rest IH]; intros m.
  - cbn. by rewrite (left_id_L ∅ (∪)).
  - cbn [foldl fst snd]. rewrite IH, reverse_cons, list_to_map_app.
    cbn. rewrite <- (assoc_L (∪)). f_equal.
    by rewrite <- insert_union_l, (left_id_L ∅ (∪)).
Qed.

Lemma Unmarshal_marshal_map (m m0 : gmap string string) :
  Db.Unmarshal_map (Text (marshal_map m)) m0 = (m ∪ m0, None).
Proof.
  unfold marshal_map, Db.Unmarshal_map.
  rewrite decode_map_strings, foldl_insert_union. do 2 f_equal.
  rewrite <- (list_to_map_to_list m) at 2.
  apply list_to_map_proper.
  - rewrite reverse_Permutation, sorted_perm. apply NoDup_fst_map_to_list.
  - by rewrite reverse_Permutation, sorted_perm.
Qed.


Lemma decode_map_members_error kvs : forall m saved,
  (Db.decode_map_members kvs m saved).2 = None
  <-> saved = None /\ forallb (fun kv : string * json => string_or_null kv.2) kvs = true.
Proof.
  induction kvs as [|[key j] rest IH]; intros m saved.
  - cbn. tauto.
  - cbn [Db.decode_map_members forallb snd]. rewrite andb_true_iff.
    pose proof (decode_string_ok j EmptyString) as Hok.
    destruct (decode_string j EmptyString) as [s err]. rewrite IH.
    destruct saved, err; cbn in *; intuition congruence.
Qed.

Lemma decode_map_members_lookup kvs : forall m saved (key : string),
  (Db.decode_map_members kvs m saved).1 !! key
  = match last (filter (fun kv : string * json => kv.1 = key) kvs) with
    | Some kv => Some (decode_string kv.2 EmptyString).1
    | None => m !! key
    end.
Proof.
  induction kvs as [|[k j] rest IH]; intros m saved key; [done|].
  cbn [Db.decode_map_members].
  destruct (decode_string j EmptyString) as [s err] eqn:Hd.
  rewrite IH, filter_cons. cbn [fst].
  destruct (decide (k = key)) as [-> | Hk].
  - destruct (filter (fun kv : string * json => kv.1 = key) rest)
      as [|kv' kvs'] eqn:Hrest.
    + cbn. by rewrite lookup_insert_eq, Hd.
    + rewrite last_cons_cons. destruct (last (kv' :: kvs')) eqn:Hl; [done|].
      by apply last_None in Hl.
  - destruct (last (filter (fun kv : string * json => kv.1 = key) rest));
      [done|].
    by rewrite lookup_insert_ne.
Qed.

(** X23. Reading a column into a map fails exactly when the column is
    not JSON, or is JSON that is neither [null] nor an object, or is an
    object with a value that is neither a string nor [null].  When an
    object is read, a key holds the value of its last member, the empty
    string for [null]. *)
Theorem map_decodes_iff :
  forall (data : bytes) (m : gmap string string),
    ((Db.Unmarshal_map data m).2 = None
     <-> data = Text JNull
         \/ exists kvs,
              data = Text (JObject kvs)
              /\ forallb (fun kv : string * json => string_or_null kv.2) kvs
                 = true)
    /\ (forall kvs key,
          data = Text (JObject kvs) ->
          (Db.Unmarshal_map data m).1 !! key
          = match last (filter (fun kv : string * json => kv.1 = key) kvs) with
            | Some kv => Some (decode_string kv.2 EmptyString).1
            | None => m !! key
            end).
Proof.
  intros data m. split.
  - destruct data as [|raw|[| | | | |kvs]]; cbn [Db.Unmarshal_map snd];
      try (split; [discriminate | intros [|(kvs' & ? & _)]; discriminate]).
    + split; [by left | done].
    + rewrite decode_map_members_error. split.
      * intros [_ Hok]. right. by exists kvs.
      * intros [|(kvs' & [= <-] & Hok)]; [discriminate | done].
  - intros kvs key ->. cbn. apply decode_map_members_lookup.
Qed.

Lemma map_decodes_iff_witness :
  (Db.Unmarshal_map
     (Text (JObject [("1-Across", JString "Pet"); ("1-Across", JNull)])) ∅).1
  !! "1-Across"
  = Some EmptyString.
Proof.
  destruct (map_decodes_iff
              (Text (JObject [("1-Across", JString "Pet"); ("1-Across", JNull)]))
              ∅) as [_ Hlook].
  apply (Hlook [("1-Across", JString "Pet"); ("1-Across", JNull)] "1-Across").
  reflexivity.
Defined.

(** X24. A row whose clues and answers are the JSON of two maps is
    loaded as it is: [LoadPuzzle] returns no error and a puzzle with the
    id, title, grid and creation time of the row and with those two
    maps. *)
Theorem LoadPuzzle_loads_row :
  forall (query : DB -> Z -> Db.Scanned * option error) (handle : DB)
         (puzzleID : Z) (row : Db.Scanned)
         (clues answers : gmap string string) (w : World),
    query handle puzzleID = (row, None) ->
    Db.scan_clues row = Text (marshal_map clues) ->
    Db.scan_answers row = Text (marshal_map answers) ->
    Db.LoadPuzzle query (Some handle) puzzleID w
    = Done ({| Db.ID := Db.scan_id row;
               Db.Title := Db.scan_title row;
               Db.Grid := Db.scan_grid row;
               Db.Clues := clues;
               Db.Answers := answers;
               Db.Created := Db.scan_created row |}, None) w.
Proof.
  intros query handle puzzleID row clues answers w Hq Hc Ha.
  unfold Db.LoadPuzzle. rewrite Hq. cbn.
  rewrite Hc, Ha, !Unmarshal_marshal_map. cbn.
  by rewrite !(right_id_L ∅ (∪)).
Qed.

Lemma LoadPuzzle_loads_row_witness :
  Db.LoadPuzzle Scene.table (Some 7) 1 Sample.w0
  = Done ({| Db.ID := 1;
             Db.Title := "Monday";
             Db.Grid := "CAT.O.G";
             Db.Clues := {[ "1-Across" := "Pet" ]};
             Db.Answers := {[ "1-Across" := "CAT" ]};
             Db.Created := mkTime "2025-02-01T08:00:00Z" |}, None) Sample.w0.
Proof.
  apply (LoadPuzzle_loads_row Scene.table 7 1 Scene.row
           {[ "1-Across" := "Pet" ]} {[ "1-Across" := "CAT" ]} Sample.w0);
    reflexivity.
Defined.

(** X25. [LoadPuzzle] on a database returns, and it returns no error
    exactly when the scan, the clues and the answers all go through.  The
    first failure decides: the error of the scan is returned as it is and
    no column is parsed; a failure in the clues is returned under
    [error parsing clues: ] and the answers are not parsed; a failure in
    the answers is returned under [error parsing answers: ]. *)
Theorem LoadPuzzle_first_failure :
  forall (query : DB -> Z -> Db.Scanned * option error) (handle : DB)
         (puzzleID : Z) (w : World),
    let row := (query handle puzzleID).1 in
    let clues := Db.Unmarshal_map (Db.scan_clues row) ∅ in
    let answers := Db.Unmarshal_map (Db.scan_answers row) ∅ in
    exists puzzle err,
      Db.LoadPuzzle query (Some handle) puzzleID w = Done (puzzle, err) w
      /\ (err = None
          <-> (query handle puzzleID).2 = None
              /\ clues.2 = None /\ answers.2 = None)
      /\ (forall e,
            (query handle puzzleID).2 = Some e ->
            err = Some e /\ Db.Clues puzzle = ∅ /\ Db.Answers puzzle = ∅)
      /\ (forall e,
            (query handle puzzleID).2 = None -> clues.2 = Some e ->
            err = Some (Db.fmt_Errorf "error parsing clues: " e)
            /\ Db.Answers puzzle = ∅)
      /\ (forall e,
            (query handle puzzleID).2 = None -> clues.2 = None ->
            answers.2 = Some e ->
            err = Some (Db.fmt_Errorf "error parsing answers: " e)).
Proof.
  intros query handle puzzleID w. cbn zeta. unfold Db.LoadPuzzle.
  destruct (query handle puzzleID) as [row [e|]]; cbn [fst snd].
  { eexists _, _. split; [reflexivity|]. cbn.
    repeat split; try done; intros; intuition congruence. }
  cbn. destruct (Db.Unmarshal_map (Db.scan_clues row) ∅) as [clues [e|]]; cbn.
  { eexists _, _. split; [reflexivity|]. cbn.
    repeat split; try done; intros; intuition congruence. }
  destruct (Db.Unmarshal_map (Db.scan_answers row) ∅) as [answers [e|]]; cbn;
    (eexists _, _; split; [reflexivity|]; cbn;
     repeat split; try done; intros; intuition congruence).
Qed.

Lemma LoadPuzzle_first_failure_witness :
  exists puzzle err,
    Db.LoadPuzzle Scene.table (Some 7) 2 Sample.w0 = Done (puzzle, err) Sample.w0
    /\ err = Some Scene.no_rows
    /\ Db.Clues puzzle = ∅
    /\ Db.Answers puzzle = ∅.
Proof.
  destruct (LoadPuzzle_first_failure Scene.table 7 2 Sample.w0)
    as (puzzle & err & Hrun & _ & Hscan & _).
  exists puzzle, err. split; [exact Hrun|].
  apply (Hscan Scene.no_rows). reflexivity.
Defined.
